(** * qdsync_cccf: frame detector and synchronizer (liquid-dsp)

    A shallow embedding of [src/framing/src/qdsync_cccf.c] and the
    properties of its two-stage state machine, its output buffer and its
    callback protocol.

    Conventions of the embedding.
    - C [unsigned int] and [int] are 32 bits wide; a value of either type is
      a [Z] and every arithmetic result is wrapped by [uint] or [sint].
    - C [float] is IEEE-754 binary32, a [spec_float] of the Standard Library
      with precision 24 and maximal exponent 128; [float complex] is a pair.
    - The object behind the [qdsync_cccf] pointer is the record
      [qdsync_cccf_s]; a function that mutates it takes the record and
      returns the new one next to its C return value.
    - The detector, the oscillator and the filter bank are other modules of
      the library; they are taken through the interfaces [QDetector],
      [Nco] and [Firpfb].
    - Undefined behaviour (an access outside the allocation of [buf_out], a
      conversion of a float that does not fit [int]) is the outcome
      [Fault]; an increment of an [int] wraps.
    - The callback reads the window it is given and does not call back
      into the synchronizer; the window of a detection is the list of the
      samples it held when the detector fired. *)

From Stdlib Require Import ZArith Lia List Bool.
From Stdlib Require Import Floats.SpecFloat.
From Stdlib Require Import ZArith.Zdivisibility Zmod.ZmodInv.
From stdpp Require Import base tactics option list.

Local Open Scope Z_scope.

(** ** Machine integers *)

Definition UINT_MOD : Z := 2 ^ 32.
Definition INT_MAX : Z := 2 ^ 31 - 1.
Definition INT_MIN : Z := - 2 ^ 31.

(** Conversion to [unsigned int]. *)
Definition uint (z : Z) : Z := z mod UINT_MOD.

(** Conversion to [int] (two's complement). *)
Definition sint (z : Z) : Z := (z + 2 ^ 31) mod UINT_MOD - 2 ^ 31.

(** The comparison [a >= b] of an [int] with an [unsigned int]: both sides
    are converted to [unsigned int]. *)
Definition int_geu (a b : Z) : bool := uint b <=? uint a.

(** ** Floats *)

Definition float32 : Type := spec_float.
Definition cfloat : Type := (float32 * float32)%type.

Definition f32_mul : float32 -> float32 -> float32 := SFmul 24 128.
Definition f32_div : float32 -> float32 -> float32 := SFdiv 24 128.
Definition f32_one : float32 := SFone 24 128.

(** Conversion of an integer to [float], rounding to nearest. *)
Definition f32_of_Z (z : Z) : float32 := binary_normalize 24 128 z 0 false.

(** The integer part of a finite float, toward zero. *)
Definition f32_trunc (f : float32) : option Z :=
  match f with
  | S754_zero _ => Some 0
  | S754_finite s mant e =>
      let a := match e with
               | Zneg p => Z.shiftr (Zpos mant) (Zpos p)
               | _ => Z.shiftl (Zpos mant) e
               end in
      Some (cond_Zopp s a)
  | _ => None
  end.

(** The nearest integer of a finite float, halfway cases away from zero
    (C [roundf]). *)
Definition f32_round (f : float32) : option Z :=
  match f with
  | S754_zero _ => Some 0
  | S754_finite s mant e =>
      let a := match e with
               | Zneg p => Z.shiftr (Zpos mant + Z.shiftl 1 (Zpos p - 1)) (Zpos p)
               | _ => Z.shiftl (Zpos mant) e
               end in
      Some (cond_Zopp s a)
  | _ => None
  end.

(** ** Outcomes *)

Inductive res (A : Type) : Type :=
| Done (a : A)
| Fault
| OutOfFuel.
Arguments Done {A} a.
Arguments Fault {A}.
Arguments OutOfFuel {A}.

#[global] Instance res_ret : MRet res := fun A a => Done a.
#[global] Instance res_bind : MBind res := fun A B f r =>
  match r with
  | Done a => f a
  | Fault => Fault
  | OutOfFuel => OutOfFuel
  end.

(** The cast [(int) f]: the integer part when it fits [int], undefined
    otherwise. *)
Definition f32_to_int (f : float32) : res Z :=
  match f32_trunc f with
  | Some z => if (INT_MIN <=? z) && (z <=? INT_MAX) then Done z else Fault
  | None => Fault
  end.

(** Modelled from the spec: the error codes of [liquid.h] that this file
    returns (section 7: configuration, allocation and internal-state
    errors); the header is not part of the sources. *)
Inductive liquid_rc : Type :=
| LIQUID_OK
| LIQUID_EINT
| LIQUID_EICONFIG
| LIQUID_EIMEM.

#[global] Instance liquid_rc_eq_dec : EqDecision liquid_rc.
Proof. solve_decision. Defined.

(** ** Heap blocks *)

(** [n] elements read at [p + index]. *)
Definition read_window (p : list cfloat) (index n : Z) : res (list cfloat) :=
  if (0 <=? index) && (0 <=? n) && (index + n <=? Z.of_nat (length p))
  then Done (take (Z.to_nat n) (drop (Z.to_nat index) p))
  else Fault.

(** [p[i] = x]. *)
Definition store (p : list cfloat) (i : Z) (x : cfloat) : res (list cfloat) :=
  if (0 <=? i) && (i <? Z.of_nat (length p))
  then Done (<[Z.to_nat i := x]> p)
  else Fault.

(** [memmove(p, p + index, n * sizeof(float complex))]. *)
Definition memmove_front (p : list cfloat) (index n : Z) : res (list cfloat) :=
  w ← read_window p index n;
  Done (w ++ drop (length w) p).

(** What [realloc] answers: [NULL], or a block whose new cells hold
    [junk]. *)
Inductive realloc_result : Type :=
| ReallocNull
| ReallocOk (junk : cfloat).

(** [realloc(p, n * sizeof(float complex))]. *)
Definition realloc (p : list cfloat) (n : Z) (r : realloc_result) : option (list cfloat) :=
  match r with
  | ReallocNull => None
  | ReallocOk junk =>
      Some (take (Z.to_nat n) p ++ replicate (Z.to_nat n - length p)%nat junk)
  end.

(** ** Collaborators *)

(** Modelled from the spec: the detector of section 6. [qdetector_cccf_execute]
    answers the window of [qdetector_cccf_get_buf_len] buffered samples on
    a detection and nothing ([NULL]) otherwise. *)
Class QDetector (D : Type) : Type := {
  qdetector_cccf_create_linear : list cfloat -> Z -> Z -> Z -> Z -> float32 -> D;
  qdetector_cccf_execute : D -> cfloat -> D * option (list cfloat);
  qdetector_cccf_reset : D -> D;
  qdetector_cccf_get_tau : D -> float32;
  qdetector_cccf_get_gamma : D -> float32;
  qdetector_cccf_get_dphi : D -> float32;
  qdetector_cccf_get_phi : D -> float32;
  qdetector_cccf_get_rxy : D -> float32;
  qdetector_cccf_get_threshold : D -> float32;
  qdetector_cccf_set_threshold : D -> float32 -> liquid_rc * D;
  qdetector_cccf_set_range : D -> float32 -> liquid_rc * D
}.

(** Modelled from the spec: the mixer of section 6. *)
Class Nco (N : Type) : Type := {
  nco_crcf_create : N;
  nco_crcf_set_frequency : N -> float32 -> N;
  nco_crcf_set_phase : N -> float32 -> N;
  nco_crcf_mix_down : N -> cfloat -> cfloat;
  nco_crcf_step : N -> N
}.

(** Modelled from the spec: the timing filter bank of section 6. *)
Class Firpfb (F : Type) : Type := {
  firpfb_crcf_create_rnyquist : Z -> Z -> Z -> Z -> float32 -> F;
  firpfb_crcf_set_scale : F -> float32 -> F;
  firpfb_crcf_push : F -> cfloat -> F;
  firpfb_crcf_execute : F -> Z -> cfloat;
  firpfb_crcf_reset : F -> F
}.

(** ** The synchronizer object *)

Definition QDSYNC_STATE_DETECT : Z := 0.
Definition QDSYNC_STATE_SYNC : Z := 1.

Section Qdsync.

Context {D N F C : Type} `{!QDetector D, !Nco N, !Firpfb F}.

(** The user's callback receives the window [(_buf, _buf_len)] and the
    context; [context] stands for the memory behind the [void *], which
    the callback may change. *)
Definition qdsync_callback : Type := list cfloat -> C -> Z * C.

(** [struct qdsync_cccf_s]. The last field is not in the C object: it
    records, oldest first, every window handed to the callback. *)
#[projections(primitive)] Record qdsync_cccf_s : Type := Qdsync {
  seq_len : Z;
  ftype : Z;
  k : Z;
  m : Z;
  beta : float32;
  callback : option qdsync_callback;
  context : C;
  detector : D;
  state : Z;
  symbol_counter : Z;
  mixer : N;
  mf : F;
  npfb : Z;
  mf_counter : Z;
  pfb_index : Z;
  buf_out_len : Z;
  buf_out : list cfloat;
  buf_out_counter : Z;
  cb_log : list (list cfloat)
}.

Definition with_callback (v : option qdsync_callback) (q : qdsync_cccf_s) : qdsync_cccf_s :=
  {| seq_len := seq_len q; ftype := ftype q; k := k q; m := m q;
     beta := beta q; callback := v; context := context q;
     detector := detector q; state := state q;
     symbol_counter := symbol_counter q; mixer := mixer q; mf := mf q;
     npfb := npfb q; mf_counter := mf_counter q; pfb_index := pfb_index q;
     buf_out_len := buf_out_len q; buf_out := buf_out q;
     buf_out_counter := buf_out_counter q; cb_log := cb_log q |}.

Definition with_context (v : C) (q : qdsync_cccf_s) : qdsync_cccf_s :=
  {| seq_len := seq_len q; ftype := ftype q; k := k q; m := m q;
     beta := beta q; callback := callback q; context := v;
     detector := detector q; state := state q;
     symbol_counter := symbol_counter q; mixer := mixer q; mf := mf q;
     npfb := npfb q; mf_counter := mf_counter q; pfb_index := pfb_index q;
     buf_out_len := buf_out_len q; buf_out := buf_out q;
     buf_out_counter := buf_out_counter q; cb_log := cb_log q |}.

Definition with_detector (v : D) (q : qdsync_cccf_s) : qdsync_cccf_s :=
  {| seq_len := seq_len q; ftype := ftype q; k := k q; m := m q;
     beta := beta q; callback := callback q; context := context q;
     detector := v; state := state q; symbol_counter := symbol_counter q;
     mixer := mixer q; mf := mf q; npfb := npfb q;
     mf_counter := mf_counter q; pfb_index := pfb_index q;
     buf_out_len := buf_out_len q; buf_out := buf_out q;
     buf_out_counter := buf_out_counter q; cb_log := cb_log q |}.

Definition with_state (v : Z) (q : qdsync_cccf_s) : qdsync_cccf_s :=
  {| seq_len := seq_len q; ftype := ftype q; k := k q; m := m q;
     beta := beta q; callback := callback q; context := context q;
     detector := detector q; state := v; symbol_counter := symbol_counter q;
     mixer := mixer q; mf := mf q; npfb := npfb q;
     mf_counter := mf_counter q; pfb_index := pfb_index q;
     buf_out_len := buf_out_len q; buf_out := buf_out q;
     buf_out_counter := buf_out_counter q; cb_log := cb_log q |}.

Definition with_symbol_counter (v : Z) (q : qdsync_cccf_s) : qdsync_cccf_s :=
  {| seq_len := seq_len q; ftype := ftype q; k := k q; m := m q;
     beta := beta q; callback := callback q; context := context q;
     detector := detector q; state := state q; symbol_counter := v;
     mixer := mixer q; mf := mf q; npfb := npfb q;
     mf_counter := mf_counter q; pfb_index := pfb_index q;
     buf_out_len := buf_out_len q; buf_out := buf_out q;
     buf_out_counter := buf_out_counter q; cb_log := cb_log q |}.

Definition with_mixer (v : N) (q : qdsync_cccf_s) : qdsync_cccf_s :=
  {| seq_len := seq_len q; ftype := ftype q; k := k q; m := m q;
     beta := beta q; callback := callback q; context := context q;
     detector := detector q; state := state q;
     symbol_counter := symbol_counter q; mixer := v; mf := mf q;
     npfb := npfb q; mf_counter := mf_counter q; pfb_index := pfb_index q;
     buf_out_len := buf_out_len q; buf_out := buf_out q;
     buf_out_counter := buf_out_counter q; cb_log := cb_log q |}.

Definition with_mf (v : F) (q : qdsync_cccf_s) : qdsync_cccf_s :=
  {| seq_len := seq_len q; ftype := ftype q; k := k q; m := m q;
     beta := beta q; callback := callback q; context := context q;
     detector := detector q; state := state q;
     symbol_counter := symbol_counter q; mixer := mixer q; mf := v;
     npfb := npfb q; mf_counter := mf_counter q; pfb_index := pfb_index q;
     buf_out_len := buf_out_len q; buf_out := buf_out q;
     buf_out_counter := buf_out_counter q; cb_log := cb_log q |}.

Definition with_mf_counter (v : Z) (q : qdsync_cccf_s) : qdsync_cccf_s :=
  {| seq_len := seq_len q; ftype := ftype q; k := k q; m := m q;
     beta := beta q; callback := callback q; context := context q;
     detector := detector q; state := state q;
     symbol_counter := symbol_counter q; mixer := mixer q; mf := mf q;
     npfb := npfb q; mf_counter := v; pfb_index := pfb_index q;
     buf_out_len := buf_out_len q; buf_out := buf_out q;
     buf_out_counter := buf_out_counter q; cb_log := cb_log q |}.

Definition with_pfb_index (v : Z) (q : qdsync_cccf_s) : qdsync_cccf_s :=
  {| seq_len := seq_len q; ftype := ftype q; k := k q; m := m q;
     beta := beta q; callback := callback q; context := context q;
     detector := detector q; state := state q;
     symbol_counter := symbol_counter q; mixer := mixer q; mf := mf q;
     npfb := npfb q; mf_counter := mf_counter q; pfb_index := v;
     buf_out_len := buf_out_len q; buf_out := buf_out q;
     buf_out_counter := buf_out_counter q; cb_log := cb_log q |}.

Definition with_buf_out_len (v : Z) (q : qdsync_cccf_s) : qdsync_cccf_s :=
  {| seq_len := seq_len q; ftype := ftype q; k := k q; m := m q;
     beta := beta q; callback := callback q; context := context q;
     detector := detector q; state := state q;
     symbol_counter := symbol_counter q; mixer := mixer q; mf := mf q;
     npfb := npfb q; mf_counter := mf_counter q; pfb_index := pfb_index q;
     buf_out_len := v; buf_out := buf_out q;
     buf_out_counter := buf_out_counter q; cb_log := cb_log q |}.

Definition with_buf_out (v : list cfloat) (q : qdsync_cccf_s) : qdsync_cccf_s :=
  {| seq_len := seq_len q; ftype := ftype q; k := k q; m := m q;
     beta := beta q; callback := callback q; context := context q;
     detector := detector q; state := state q;
     symbol_counter := symbol_counter q; mixer := mixer q; mf := mf q;
     npfb := npfb q; mf_counter := mf_counter q; pfb_index := pfb_index q;
     buf_out_len := buf_out_len q; buf_out := v;
     buf_out_counter := buf_out_counter q; cb_log := cb_log q |}.

Definition with_buf_out_counter (v : Z) (q : qdsync_cccf_s) : qdsync_cccf_s :=
  {| seq_len := seq_len q; ftype := ftype q; k := k q; m := m q;
     beta := beta q; callback := callback q; context := context q;
     detector := detector q; state := state q;
     symbol_counter := symbol_counter q; mixer := mixer q; mf := mf q;
     npfb := npfb q; mf_counter := mf_counter q; pfb_index := pfb_index q;
     buf_out_len := buf_out_len q; buf_out := buf_out q;
     buf_out_counter := v; cb_log := cb_log q |}.

Definition with_cb_log (v : list (list cfloat)) (q : qdsync_cccf_s) : qdsync_cccf_s :=
  {| seq_len := seq_len q; ftype := ftype q; k := k q; m := m q;
     beta := beta q; callback := callback q; context := context q;
     detector := detector q; state := state q;
     symbol_counter := symbol_counter q; mixer := mixer q; mf := mf q;
     npfb := npfb q; mf_counter := mf_counter q; pfb_index := pfb_index q;
     buf_out_len := buf_out_len q; buf_out := buf_out q;
     buf_out_counter := buf_out_counter q; cb_log := v |}.

(** What [malloc] leaves in the fields that creation does not assign, and
    in the cells of the fresh output buffer. *)
Record heap_junk : Type := HeapJunk {
  junk_state : Z;
  junk_symbol_counter : Z;
  junk_mf_counter : Z;
  junk_pfb_index : Z;
  junk_buf_out_counter : Z;
  junk_sample : cfloat
}.

Definition qdsync_cccf_set_callback (q : qdsync_cccf_s) (_callback : option qdsync_callback)
  : liquid_rc * qdsync_cccf_s :=
  (LIQUID_OK, with_callback _callback q).

Definition qdsync_cccf_set_context (q : qdsync_cccf_s) (_context : C)
  : liquid_rc * qdsync_cccf_s :=
  (LIQUID_OK, with_context _context q).

Definition qdsync_cccf_reset (q : qdsync_cccf_s) : liquid_rc * qdsync_cccf_s :=
  let q := with_detector (qdetector_cccf_reset (detector q)) q in
  let q := with_state QDSYNC_STATE_DETECT q in
  let q := with_symbol_counter 0 q in
  let q := with_buf_out_counter 0 q in
  let q := with_mf (firpfb_crcf_reset (mf q)) q in
  (LIQUID_OK, q).

(** [NULL] is [None]. *)
Definition qdsync_cccf_create_linear (junk : heap_junk)
    (_seq : list cfloat) (_seq_len : Z) (_ftype : Z) (_k : Z) (_m : Z)
    (_beta : float32) (_callback : option qdsync_callback) (_context : C)
  : option qdsync_cccf_s :=
  if _seq_len =? 0 then None
  else
    let q :=
      {| seq_len := _seq_len; ftype := _ftype; k := _k; m := _m; beta := _beta;
         callback := _callback; context := _context;
         detector := qdetector_cccf_create_linear _seq _seq_len _ftype _k _m _beta;
         state := junk_state junk; symbol_counter := junk_symbol_counter junk;
         mixer := nco_crcf_create;
         mf := firpfb_crcf_create_rnyquist _ftype 256 _k _m _beta;
         npfb := 256;
         mf_counter := junk_mf_counter junk; pfb_index := junk_pfb_index junk;
         buf_out_len := 64;
         buf_out := replicate 64 (junk_sample junk);
         buf_out_counter := junk_buf_out_counter junk;
         cb_log := [] |} in
    Some (snd (qdsync_cccf_reset q)).

(** The sub-objects and the buffer are values here, so their copies are
    the values themselves; the buffer copy reads [buf_out_len] cells. *)
Definition qdsync_cccf_copy (q_orig : option qdsync_cccf_s) : res (option qdsync_cccf_s) :=
  match q_orig with
  | None => Done None
  | Some q =>
      b ← read_window (buf_out q) 0 (buf_out_len q);
      Done (Some (with_buf_out b q))
  end.

Definition qdsync_cccf_get_threshold (q : qdsync_cccf_s) : float32 :=
  qdetector_cccf_get_threshold (detector q).

Definition qdsync_cccf_set_threshold (q : qdsync_cccf_s) (_threshold : float32)
  : liquid_rc * qdsync_cccf_s :=
  let '(rc, d) := qdetector_cccf_set_threshold (detector q) _threshold in
  (rc, with_detector d q).

Definition qdsync_cccf_set_range (q : qdsync_cccf_s) (_dphi_max : float32)
  : liquid_rc * qdsync_cccf_s :=
  let '(rc, d) := qdetector_cccf_set_range (detector q) _dphi_max in
  (rc, with_detector d q).

Definition qdsync_cccf_is_open (q : qdsync_cccf_s) : Z :=
  if state q =? QDSYNC_STATE_DETECT then 0 else 1.

(** One call of the callback on the window of [n] samples at
    [buf_out + index]; the result is the callback's return value. *)
Definition invoke_callback (cb : qdsync_callback) (q : qdsync_cccf_s) (index n : Z)
  : res (Z * qdsync_cccf_s) :=
  w ← read_window (buf_out q) index n;
  let '(rc, c) := cb w (context q) in
  Done (rc, with_cb_log (cb_log q ++ [w]) (with_context c q)).

(** The loop of the shrink path of [qdsync_cccf_set_buf_len]; it answers
    the object and the read offset [index]. *)
Fixpoint set_buf_len_loop (fuel : nat) (_buf_len : Z) (q : qdsync_cccf_s) (index : Z)
  : res (qdsync_cccf_s * Z) :=
  if _buf_len <=? buf_out_counter q then
    match fuel with
    | O => OutOfFuel
    | S fuel' =>
        q1 ← match callback q with
             | Some cb => '(_, q') ← invoke_callback cb q index _buf_len; Done q'
             | None => Done q
             end;
        let index := uint (index + _buf_len) in
        let q2 := with_buf_out_counter (uint (buf_out_counter q1 - _buf_len)) q1 in
        set_buf_len_loop fuel' _buf_len q2 index
    end
  else Done (q, index).

Definition qdsync_cccf_set_buf_len (q : qdsync_cccf_s) (_buf_len : Z) (r : realloc_result)
  : res (liquid_rc * qdsync_cccf_s) :=
  if _buf_len =? 0 then Done (LIQUID_EICONFIG, q)
  else if buf_out_counter q <? _buf_len then
    let q := with_buf_out_len _buf_len q in
    match realloc (buf_out q) (buf_out_len q) r with
    | None => Done (LIQUID_EIMEM, q)
    | Some buf_new => Done (LIQUID_OK, with_buf_out buf_new q)
    end
  else
    '(q, index) ← set_buf_len_loop (Z.to_nat (buf_out_counter q)) _buf_len q 0;
    b ← memmove_front (buf_out q) index (buf_out_counter q);
    let q := with_buf_out b q in
    let q := with_buf_out_len _buf_len q in
    match realloc (buf_out q) (buf_out_len q) r with
    | None => Done (LIQUID_EIMEM, q)
    | Some buf_new => Done (LIQUID_OK, with_buf_out buf_new q)
    end.

Definition qdsync_cccf_buf_append (q : qdsync_cccf_s) (_x : cfloat)
  : res (liquid_rc * qdsync_cccf_s) :=
  let q := with_symbol_counter (uint (symbol_counter q + 1)) q in
  if symbol_counter q <=? uint (2 * m q) then Done (LIQUID_OK, q)
  else
    b ← store (buf_out q) (buf_out_counter q) _x;
    let q := with_buf_out b q in
    let q := with_buf_out_counter (uint (buf_out_counter q + 1)) q in
    if buf_out_counter q =? buf_out_len q then
      let q := with_buf_out_counter 0 q in
      match callback q with
      | Some cb =>
          '(rc, q) ← invoke_callback cb q 0 (buf_out_len q);
          if rc =? 0 then Done (LIQUID_OK, q) else Done (qdsync_cccf_reset q)
      | None => Done (LIQUID_OK, q)
      end
    else Done (LIQUID_OK, q).

Definition qdsync_cccf_step (q : qdsync_cccf_s) (_x : cfloat)
  : res (liquid_rc * qdsync_cccf_s) :=
  let v := nco_crcf_mix_down (mixer q) _x in
  let q := with_mixer (nco_crcf_step (mixer q)) q in
  let q := with_mf (firpfb_crcf_push (mf q) v) q in
  let v := firpfb_crcf_execute (mf q) (pfb_index q) in
  let q := with_mf_counter (sint (mf_counter q + 1)) q in
  let sample_available := int_geu (mf_counter q) (k q - 1) in
  if sample_available then
    let q := with_mf_counter (sint (uint (mf_counter q) - k q)) q in
    '(_, q) ← qdsync_cccf_buf_append q v;
    Done (LIQUID_OK, q)
  else Done (LIQUID_OK, q).

(** Lines 336 to 361 of [qdsync_cccf_execute_detect]: the estimates of the
    detector are installed and the state becomes [QDSYNC_STATE_SYNC]. *)
Definition qdsync_cccf_handoff (q : qdsync_cccf_s) : res qdsync_cccf_s :=
  let tau_hat := qdetector_cccf_get_tau (detector q) in
  let gamma_hat := qdetector_cccf_get_gamma (detector q) in
  let dphi_hat := qdetector_cccf_get_dphi (detector q) in
  let phi_hat := qdetector_cccf_get_phi (detector q) in
  let q := with_mf_counter (sint (uint (k q - 2))) q in
  let q := with_pfb_index 0 q in
  index ← f32_to_int (f32_mul tau_hat (f32_of_Z (npfb q)));
  let '(q, index) :=
    if index <? 0
    then (with_mf_counter (sint (mf_counter q + 1)) q, sint (uint index + npfb q))
    else (q, index) in
  let q := with_pfb_index (uint index) q in
  let q := with_mf (firpfb_crcf_set_scale (mf q)
                      (f32_div f32_one (f32_mul (f32_of_Z (k q)) gamma_hat))) q in
  let q := with_mixer (nco_crcf_set_phase
                         (nco_crcf_set_frequency (mixer q) dphi_hat) phi_hat) q in
  Done (with_state QDSYNC_STATE_SYNC q).

(** [qdsync_cccf_execute_detect], with the recursive call of
    [qdsync_cccf_execute] as the parameter [exec]; its return value is
    dropped, as in the source. *)
Definition qdsync_cccf_execute_detect_with
    (exec : qdsync_cccf_s -> list cfloat -> res (liquid_rc * qdsync_cccf_s))
    (q : qdsync_cccf_s) (_x : cfloat) : res (liquid_rc * qdsync_cccf_s) :=
  let '(d, v) := qdetector_cccf_execute (detector q) _x in
  let q := with_detector d q in
  match v with
  | Some v =>
      q ← qdsync_cccf_handoff q;
      '(_, q) ← exec q v;
      Done (LIQUID_OK, q)
  | None => Done (LIQUID_OK, q)
  end.

(** The loop of [qdsync_cccf_execute] over the samples of [_buf]. *)
Fixpoint execute_loop
    (detect : qdsync_cccf_s -> cfloat -> res (liquid_rc * qdsync_cccf_s))
    (q : qdsync_cccf_s) (_buf : list cfloat) : res (liquid_rc * qdsync_cccf_s) :=
  match _buf with
  | [] => Done (LIQUID_OK, q)
  | x :: rest =>
      if state q =? QDSYNC_STATE_DETECT then
        '(_, q) ← detect q x;
        execute_loop detect q rest
      else if state q =? QDSYNC_STATE_SYNC then
        '(_, q) ← qdsync_cccf_step q x;
        execute_loop detect q rest
      else Done (LIQUID_EINT, q)
  end.

(** [qdsync_cccf_execute]; [fuel] bounds the depth of the calls
    [execute -> execute_detect -> execute]. *)
Fixpoint qdsync_cccf_execute (fuel : nat) (q : qdsync_cccf_s) (_buf : list cfloat)
  : res (liquid_rc * qdsync_cccf_s) :=
  match fuel with
  | O => OutOfFuel
  | S fuel' =>
      execute_loop (qdsync_cccf_execute_detect_with (qdsync_cccf_execute fuel')) q _buf
  end.

Definition qdsync_cccf_execute_detect (fuel : nat)
  : qdsync_cccf_s -> cfloat -> res (liquid_rc * qdsync_cccf_s) :=
  qdsync_cccf_execute_detect_with (qdsync_cccf_execute fuel).

End Qdsync.

Arguments qdsync_cccf_s : clear implicits.
Arguments qdsync_callback : clear implicits.

(** ** Derived operations used by the statements *)

Section Runs.

Context {D N F C : Type} `{!QDetector D, !Nco N, !Firpfb F}.

Abbreviation qdsync := (qdsync_cccf_s D N F C).

(** [qdsync_cccf_buf_append] on each sample of [xs] in turn. *)
Fixpoint append_all (q : qdsync) (xs : list cfloat) : res qdsync :=
  match xs with
  | [] => Done q
  | x :: rest => '(_, q') ← qdsync_cccf_buf_append q x; append_all q' rest
  end.

(** The calls a user can make on a live object. *)
Inductive api_call : Type :=
| CallExecute (fuel : nat) (_buf : list cfloat)
| CallReset
| CallCopy
| CallSetThreshold (_threshold : float32)
| CallSetRange (_dphi_max : float32)
| CallSetCallback (_callback : option (qdsync_callback C))
| CallSetContext (_context : C)
| CallSetBufLen (_buf_len : Z) (r : realloc_result).

(** One call; after [CallCopy] the run goes on with the copy. *)
Definition api_run (q : qdsync) (c : api_call) : res (liquid_rc * qdsync) :=
  match c with
  | CallExecute fuel _buf => qdsync_cccf_execute fuel q _buf
  | CallReset => Done (qdsync_cccf_reset q)
  | CallCopy =>
      o ← qdsync_cccf_copy (Some q);
      match o with
      | Some q' => Done (LIQUID_OK, q')
      | None => Done (LIQUID_EICONFIG, q)
      end
  | CallSetThreshold t => Done (qdsync_cccf_set_threshold q t)
  | CallSetRange r => Done (qdsync_cccf_set_range q r)
  | CallSetCallback cb => Done (qdsync_cccf_set_callback q cb)
  | CallSetContext c => Done (qdsync_cccf_set_context q c)
  | CallSetBufLen n r => qdsync_cccf_set_buf_len q n r
  end.

Fixpoint api_run_all (q : qdsync) (cs : list api_call) : res qdsync :=
  match cs with
  | [] => Done q
  | c :: rest => '(_, q') ← api_run q c; api_run_all q' rest
  end.

(** The objects a user can hold: those made by creation and those that a
    call leaves behind. *)
Inductive reachable : qdsync -> Prop :=
| reachable_create junk _seq _seq_len _ftype _k _m _beta _callback _context q :
    qdsync_cccf_create_linear junk _seq _seq_len _ftype _k _m _beta _callback _context
      = Some q ->
    reachable q
| reachable_call q c rc q' :
    reachable q ->
    api_run q c = Done (rc, q') ->
    reachable q'.

Definition state_known (q : qdsync) : Prop :=
  state q = QDSYNC_STATE_DETECT \/ state q = QDSYNC_STATE_SYNC.

(** The object after the flush of a shrink: the context as the callback
    left it, the delivered windows appended to the log, and the count of
    buffered samples reduced. *)
Definition flushed (ctx : C) (windows : list (list cfloat)) (n : Z) (q : qdsync)
  : qdsync :=
  with_buf_out_counter n (with_cb_log (cb_log q ++ windows) (with_context ctx q)).

(** The context after the callback has been called on the windows, in
    order, each call starting from the context the call before it left:
    what the consumer holds once it has received them. *)
Definition consume (cb : qdsync_callback C) (windows : list (list cfloat)) (ctx : C)
  : C :=
  fold_left (fun c w => snd (cb w c)) windows ctx.

(** The two outcomes of the final [realloc] of [qdsync_cccf_set_buf_len]
    on the object [q] whose recorded length is already the new one. *)
Definition resized (r : realloc_result) (q : qdsync) : liquid_rc * qdsync :=
  match realloc (buf_out q) (buf_out_len q) r with
  | None => (LIQUID_EIMEM, q)
  | Some buf_new => (LIQUID_OK, with_buf_out buf_new q)
  end.

(** What the loop of [qdsync_cccf_execute] needs from the code that
    handles a sample: a known state in, a known state out. *)
Definition keeps_state_known
    (f : qdsync -> cfloat -> res (liquid_rc * qdsync))
  : Prop :=
  forall q x rc q', state_known q -> f q x = Done (rc, q') -> state_known q'.

(** The bookkeeping of a run: [k] fits a positive [int], the symbol
    counter is zero while the detector searches, and the timing counter
    of a tracking object lies between [-1] and [k - 1]. *)
Definition counters_ok (q : qdsync) : Prop :=
  1 <= k q <= INT_MAX
  /\ (state q = QDSYNC_STATE_DETECT -> symbol_counter q = 0)
  /\ (state q = QDSYNC_STATE_SYNC -> -1 <= mf_counter q <= k q - 1).

(** The output stream of the synchronizer so far: the windows handed to
    the callback, in order, then the samples waiting in the buffer. *)
Definition out_stream (q : qdsync) : list cfloat :=
  concat (cb_log q) ++ take (Z.to_nat (buf_out_counter q)) (buf_out q).

(** The cursor is below the recorded capacity, and the recorded capacity
    does not exceed the allocation. *)
Definition buffer_ok (q : qdsync) : Prop :=
  0 <= buf_out_counter q < buf_out_len q
  /\ buf_out_len q <= Z.of_nat (length (buf_out q))
  /\ buf_out_len q < UINT_MOD.

(** The installed callback, if any, never asks for a restart. *)
Definition never_restarts (q : qdsync) : Prop :=
  forall cb, callback q = Some cb -> forall w c, fst (cb w c) = 0.

(** The detector run over [xs] without a detection: its final state, or
    nothing when it fires on the way. *)
Fixpoint detector_silent (d : D) (xs : list cfloat) : option D :=
  match xs with
  | [] => Some d
  | x :: rest =>
      match qdetector_cccf_execute d x with
      | (d', None) => detector_silent d' rest
      | (_, Some _) => None
      end
  end.


(** The handoff as the specification words it: the branch index is the
    product of the timing estimate and [npfb] rounded to the nearest
    integer, increased by [npfb] when negative; the timing counter is
    [k - 2], and [k - 1] when the index was negative. *)
Definition spec_handoff_index (tau_hat : float32) (_npfb : Z) : option Z :=
  f32_round (f32_mul tau_hat (f32_of_Z _npfb)).

Definition spec_handoff_pfb_index (tau_hat : float32) (_npfb : Z) : option Z :=
  index ← spec_handoff_index tau_hat _npfb;
  Some (if index <? 0 then index + _npfb else index).

Definition spec_handoff_mf_counter (tau_hat : float32) (_npfb _k : Z) : option Z :=
  index ← spec_handoff_index tau_hat _npfb;
  Some (if index <? 0 then _k - 1 else _k - 2).

End Runs.

(** ** The number-theory helpers of the Rader sandbox

    [sandbox/fft_rader_prime_test.c]: the primality test, the modular
    power and the search of the smallest primitive root.  All values are
    [unsigned int]; a division by zero is undefined. *)

Definition MAX_FACTORS : Z := 40.

(** [a % b]. *)
Definition umod (a b : Z) : res Z := if b =? 0 then Fault else Done (a mod b).

(** [a / b]. *)
Definition udiv (a b : Z) : res Z := if b =? 0 then Fault else Done (a / b).

(** [p[i]] and [p[i] = x] on an array of [unsigned int]. *)
Definition load_uint (p : list Z) (i : Z) : res Z :=
  if 0 <=? i then
    match p !! Z.to_nat i with
    | Some x => Done x
    | None => Fault
    end
  else Fault.

Definition store_uint (p : list Z) (i x : Z) : res (list Z) :=
  if (0 <=? i) && (i <? Z.of_nat (length p))
  then Done (<[Z.to_nat i := x]> p)
  else Fault.

(** The loop [for (; i<_n; i++)] of [is_prime]. *)
Fixpoint is_prime_loop (fuel : nat) (_n i : Z) : res Z :=
  if i <? _n then
    match fuel with
    | O => OutOfFuel
    | S fuel' =>
        r ← umod _n i;
        if r =? 0 then Done 0 else is_prime_loop fuel' _n (uint (i + 1))
    end
  else Done 1.

Definition is_prime (_n : Z) : res Z :=
  if _n <? 4 then Done 1 else is_prime_loop (Z.to_nat _n) _n 2.

(** The validation of [main]: the transform size is turned down when
    [nfft <= 2 || !is_prime(nfft)]. *)
Definition nfft_rejected (nfft : Z) : res bool :=
  if nfft <=? 2 then Done true
  else p ← is_prime nfft; Done (p =? 0).

(** The loop of [modpow], which runs [_exp] times. *)
Fixpoint modpow_loop (count : nat) (c _base _n : Z) : res Z :=
  match count with
  | O => Done c
  | S count' =>
      c' ← umod (uint (c * _base)) _n;
      modpow_loop count' c' _base _n
  end.

Definition modpow (_base _exp _n : Z) : res Z :=
  modpow_loop (Z.to_nat _exp) 1 _base _n.

(** The inner loop [for (k=2; k<=n; k++)] of the factorization: the first
    [k] that divides [n], if any. *)
Fixpoint find_factor (fuel : nat) (n k : Z) : res (option Z) :=
  if k <=? n then
    match fuel with
    | O => OutOfFuel
    | S fuel' =>
        r ← umod n k;
        if r =? 0 then Done (Some k) else find_factor fuel' n (uint (k + 1))
    end
  else Done None.

(** The variables of the factorization: the table, the number of its
    valid entries and what is left of [_n - 1]. *)
Record factor_state : Type := FactorState {
  unique_factors : list Z;
  num_unique_factors : Z;
  fs_n : Z
}.

(** One pass of the body of the [do ... while]. *)
Definition factor_body (st : factor_state) : res factor_state :=
  f ← find_factor (Z.to_nat (fs_n st)) (fs_n st) 2;
  match f with
  | None => Done st
  | Some k =>
      n ← udiv (fs_n st) k;
      tbl ← store_uint (unique_factors st) (num_unique_factors st) k;
      if num_unique_factors st =? 0 then
        Done (FactorState tbl (uint (num_unique_factors st + 1)) n)
      else
        prev ← load_uint tbl (uint (num_unique_factors st - 1));
        if prev =? k then Done (FactorState tbl (num_unique_factors st) n)
        else Done (FactorState tbl (uint (num_unique_factors st + 1)) n)
  end.

(** [do { ... } while (n > 1 && num_unique_factors < MAX_FACTORS)]. *)
Fixpoint factor_loop (fuel : nat) (st : factor_state) : res factor_state :=
  st' ← factor_body st;
  if (1 <? fs_n st') && (num_unique_factors st' <? MAX_FACTORS) then
    match fuel with
    | O => OutOfFuel
    | S fuel' => factor_loop fuel' st'
    end
  else Done st'.

(** The loop over the table for one candidate [g]: [true] when no entry
    gives the power 1. *)
Fixpoint is_root_loop (factors : list Z) (g _n : Z) : res bool :=
  match factors with
  | [] => Done true
  | f :: rest =>
      e ← udiv (uint (_n - 1)) f;
      c ← modpow g e _n;
      if c =? 1 then Done false else is_root_loop rest g _n
  end.

(** [for (g=2; g<_n; g++)], left at the first root; the result is the
    final value of [g]. *)
Fixpoint root_search (fuel : nat) (factors : list Z) (_n g : Z) : res Z :=
  if g <? _n then
    match fuel with
    | O => OutOfFuel
    | S fuel' =>
        r ← is_root_loop factors g _n;
        if r : bool then Done g else root_search fuel' factors _n (uint (g + 1))
    end
  else Done g.

(** [primitive_root]; [table0] is what the stack holds where the table
    is declared. *)
Definition primitive_root (table0 : list Z) (_n : Z) : res Z :=
  let n := uint (_n - 1) in
  st ← factor_loop (Z.to_nat n) (FactorState table0 0 n);
  root_search (Z.to_nat _n)
    (take (Z.to_nat (num_unique_factors st)) (unique_factors st)) _n 2.

(** A list of integers in strictly increasing order. *)
Definition increasing (l : list Z) : Prop :=
  forall (i j : nat) (a b : Z), (i < j)%nat -> l !! i = Some a -> l !! j = Some b -> a < b.

(** The valid entries of the table. *)
Definition factors_found (st : factor_state) : list Z :=
  take (Z.to_nat (num_unique_factors st)) (unique_factors st).

(** What the factorization of [n0] keeps true between two passes: the
    table holds, in increasing order, the primes already divided out,
    none above a prime that still divides the rest [fs_n]. *)
Definition factor_inv (n0 : Z) (st : factor_state) : Prop :=
  1 <= fs_n st
  /\ 0 <= num_unique_factors st
  /\ 2 ^ num_unique_factors st * fs_n st <= n0
  /\ Z.of_nat (length (unique_factors st)) = MAX_FACTORS
  /\ Forall Z.prime (factors_found st)
  /\ increasing (factors_found st)
  /\ (forall q, Z.prime q -> (q | n0) <-> In q (factors_found st) \/ (q | fs_n st))
  /\ (forall f q, In f (factors_found st) -> Z.prime q -> (q | fs_n st) -> f <= q).

(** Orders modulo [p]: [g] is a primitive root when no power below
    [p - 1] is 1. *)
Definition primitive_root_of (p g : Z) : Prop :=
  g mod p <> 0 /\ forall d, 0 < d < p - 1 -> g ^ d mod p <> 1.

(** The test of the search, in the integers. *)
Definition passes_root_test (p g : Z) : Prop :=
  forall q, Z.prime q -> (q | p - 1) -> g ^ ((p - 1) / q) mod p <> 1.

(** ** Stand-ins for the collaborators, for concrete runs *)

Module Mock.

Definition f32_zero : float32 := S754_zero false.
Definition sample (z : Z) : cfloat := (f32_of_Z z, f32_zero).

Definition s1 : cfloat := sample 1.
Definition s2 : cfloat := sample 2.
Definition s3 : cfloat := sample 3.
Definition s4 : cfloat := sample 4.
Definition s5 : cfloat := sample 5.

(** A detector that holds its timing estimate and fires on the sample
    [(1, 0)], handing back a window of four samples. *)
Definition detector_window : list cfloat := [sample 11; sample 12; sample 13; sample 14].

#[global] Instance mock_detector : QDetector float32 := {|
  qdetector_cccf_create_linear _ _ _ _ _ _ := f32_zero;
  qdetector_cccf_execute d x :=
    (d, if SFeqb (fst x) f32_one then Some detector_window else None);
  qdetector_cccf_reset d := d;
  qdetector_cccf_get_tau d := d;
  qdetector_cccf_get_gamma _ := f32_one;
  qdetector_cccf_get_dphi _ := f32_zero;
  qdetector_cccf_get_phi _ := f32_zero;
  qdetector_cccf_get_rxy _ := f32_one;
  qdetector_cccf_get_threshold _ := f32_one;
  qdetector_cccf_set_threshold d _ := (LIQUID_OK, d);
  qdetector_cccf_set_range d _ := (LIQUID_OK, d)
|}.

(** A mixer that counts its steps and leaves the samples as they are. *)
#[global] Instance mock_nco : Nco Z := {|
  nco_crcf_create := 0;
  nco_crcf_set_frequency n _ := n;
  nco_crcf_set_phase n _ := n;
  nco_crcf_mix_down _ x := x;
  nco_crcf_step n := n + 1
|}.

(** A filter bank whose every branch answers the last sample pushed. *)
#[global] Instance mock_firpfb : Firpfb (list cfloat) := {|
  firpfb_crcf_create_rnyquist _ _ _ _ _ := [];
  firpfb_crcf_set_scale f _ := f;
  firpfb_crcf_push f x := x :: f;
  firpfb_crcf_execute f _ := hd (sample 0) f;
  firpfb_crcf_reset _ := []
|}.

Abbreviation qdsync := (qdsync_cccf_s float32 Z (list cfloat) nat).

(** Callbacks over a context that counts the calls. *)
Definition cb_continue : qdsync_callback nat := fun _ c => (0, S c).
Definition cb_restart : qdsync_callback nat := fun _ c => (1, S c).

(** A callback that keeps a record of what it is given: it appends the
    number of every sample of the window, in order, to the decimal digits
    of the context.  The number of [sample z], for [z > 0], is [z]. *)
Definition sample_number (x : cfloat) : nat :=
  match fst x with
  | S754_finite false mx ex => Z.to_nat (Z.shiftl (Z.pos mx) ex)
  | _ => O
  end.

Definition cb_record : qdsync_callback nat :=
  fun w c => (0, fold_left (fun a x => 10 * a + sample_number x)%nat w c).

Definition junk0 : heap_junk :=
  {| junk_state := 5; junk_symbol_counter := 1234; junk_mf_counter := 77;
     junk_pfb_index := 99; junk_buf_out_counter := 4321;
     junk_sample := sample (-1) |}.

(** An object in tracking state with capacity [cap], holding the samples
    [xs], with semi-length [_m], [_k] samples per symbol and timing
    estimate [tau]. *)
Definition tracking (_k _m : Z) (tau : float32) (cb : option (qdsync_callback nat))
    (cap : nat) (xs : list cfloat) : qdsync :=
  {| seq_len := 4; ftype := 0; k := _k; m := _m; beta := f32_one;
     callback := cb; context := O; detector := tau;
     state := QDSYNC_STATE_SYNC; symbol_counter := 2 * _m + Z.of_nat (length xs);
     mixer := 0; mf := []; npfb := 256;
     mf_counter := _k - 2; pfb_index := 0;
     buf_out_len := Z.of_nat cap;
     buf_out := xs ++ replicate (cap - length xs) (sample (-1));
     buf_out_counter := Z.of_nat (length xs);
     cb_log := [] |}.

(** An object in detection state, as a reset leaves it, whose detector
    holds the timing estimate [tau]. *)
Definition searching (_k _m : Z) (tau : float32) (cb : option (qdsync_callback nat))
    (cap : nat) : qdsync :=
  {| seq_len := 4; ftype := 0; k := _k; m := _m; beta := f32_one;
     callback := cb; context := O; detector := tau;
     state := QDSYNC_STATE_DETECT; symbol_counter := 0;
     mixer := 0; mf := []; npfb := 256;
     mf_counter := 77; pfb_index := 99;
     buf_out_len := Z.of_nat cap;
     buf_out := replicate cap (sample (-1));
     buf_out_counter := 0;
     cb_log := [] |}.

(** The float [- 3 * 2 ^ -10]; times 256 it is [- 3 / 4]. *)
Definition tau_small_negative : float32 := S754_finite true 12582912 (-32).

(** The float [- 3 * 2 ^ -9]; times 256 it is [- 3 / 2]. *)
Definition tau_minus_three_halves : float32 := S754_finite true 12582912 (-31).

End Mock.

(** ** Machine arithmetic *)

Lemma uint_small (z : Z) : 0 <= z < UINT_MOD -> uint z = z.
Proof. intros Hz. unfold uint. by apply Z.mod_small. Qed.

Lemma sint_small (z : Z) : INT_MIN <= z <= INT_MAX -> sint z = z.
Proof.
  unfold sint, INT_MIN, INT_MAX, UINT_MOD. intros Hz.
  rewrite Z.mod_small; lia.
Qed.

Lemma uint_range (z : Z) : 0 <= uint z < UINT_MOD.
Proof. unfold uint, UINT_MOD. apply Z.mod_pos_bound. lia. Qed.

Lemma sint_uint (z : Z) : sint (uint z) = sint z.
Proof.
  unfold sint, uint, UINT_MOD.
  by rewrite Zplus_mod_idemp_l.
Qed.

Lemma uint_neg (z : Z) : - UINT_MOD <= z < 0 -> uint z = z + UINT_MOD.
Proof.
  unfold uint, UINT_MOD. intros Hz.
  rewrite <- (Z_mod_plus_full z 1 (2 ^ 32)).
  rewrite Z.mod_small; lia.
Qed.

(** On a counter that is not negative the mixed comparison of the source
    is the comparison of the integers. *)
Lemma int_geu_nonneg (a b : Z) :
  0 <= a < UINT_MOD -> 0 <= b < UINT_MOD -> int_geu a b = (b <=? a).
Proof. intros Ha Hb. unfold int_geu. by rewrite !uint_small. Qed.

(** [f32_trunc] drops the fraction: the magnitude of the result is the
    integer part of the magnitude of the float. *)
Lemma f32_trunc_fraction (s : bool) (mant p : positive) (z : Z) :
  f32_trunc (S754_finite s mant (Zneg p)) = Some z ->
  Z.abs z * 2 ^ Zpos p <= Zpos mant < (Z.abs z + 1) * 2 ^ Zpos p.
Proof.
  cbn [f32_trunc]. intros [= <-].
  rewrite Z.shiftr_div_pow2 by lia.
  assert (Hp : 0 < 2 ^ Zpos p) by (apply Z.pow_pos_nonneg; lia).
  assert (Hq : 0 <= Zpos mant / 2 ^ Zpos p) by (apply Z.div_pos; lia).
  replace (Z.abs (cond_Zopp s (Zpos mant / 2 ^ Zpos p))) with (Zpos mant / 2 ^ Zpos p)
    by (destruct s; cbn [cond_Zopp]; lia).
  pose proof (Z.mul_div_le (Zpos mant) _ Hp).
  pose proof (Z.mul_succ_div_gt (Zpos mant) _ Hp).
  lia.
Qed.

Lemma f32_to_int_Done (f : float32) (z : Z) :
  f32_to_int f = Done z <-> f32_trunc f = Some z /\ INT_MIN <= z <= INT_MAX.
Proof.
  unfold f32_to_int. split.
  - destruct (f32_trunc f) as [y|]; [|done].
    destruct (Z.leb_spec INT_MIN y); [|done].
    destruct (Z.leb_spec y INT_MAX); [|done].
    cbn. intros [= ->]. auto.
  - intros [-> [H1 H2]]. apply Z.leb_le in H1, H2. by rewrite H1, H2.
Qed.

(** ** Heap blocks *)

Lemma read_window_Done (p : list cfloat) (index n : Z) :
  0 <= index -> 0 <= n -> index + n <= Z.of_nat (length p) ->
  read_window p index n = Done (take (Z.to_nat n) (drop (Z.to_nat index) p)).
Proof.
  intros H1 H2 H3. unfold read_window.
  destruct (0 <=? index) eqn:E1; [|lia].
  destruct (0 <=? n) eqn:E2; [|lia].
  destruct (index + n <=? Z.of_nat (length p)) eqn:E3; [done|lia].
Qed.


Lemma store_Done (p : list cfloat) (i : Z) (x : cfloat) :
  0 <= i < Z.of_nat (length p) -> store p i x = Done (<[Z.to_nat i := x]> p).
Proof.
  intros Hi. unfold store.
  destruct (0 <=? i) eqn:E1; [|lia].
  destruct (i <? Z.of_nat (length p)) eqn:E2; [done|lia].
Qed.



(** ** The synchronizer *)

Section Properties.

Context {D N F C : Type} `{!QDetector D, !Nco N, !Firpfb F}.

Implicit Types (q : qdsync_cccf_s D N F C) (x : cfloat) (xs : list cfloat).

(** *** Rejected configurations *)

(** C8: creation with a sequence of length zero makes no object, and a
    request for an output buffer of length zero answers the configuration
    error and leaves the object, hence its buffer, cursor and capacity,
    as it was. *)
Theorem C8_zero_length_rejected junk (_seq : list cfloat) _ftype _k _m _beta
    (_callback : option (qdsync_callback C)) (_context : C) q r :
  qdsync_cccf_create_linear (D:=D) (N:=N) (F:=F) junk _seq 0 _ftype _k _m _beta
    _callback _context = None
  /\ qdsync_cccf_set_buf_len q 0 r = Done (LIQUID_EICONFIG, q).
Proof. split; reflexivity. Qed.

(** *** One tracking step *)

(** With [k] and the timing counter in the range of a run, the machine
    arithmetic of the step is the arithmetic of the integers. *)
Lemma step_in_range q x :
  1 <= k q <= INT_MAX ->
  -1 <= mf_counter q < INT_MAX ->
  let v := nco_crcf_mix_down (mixer q) x in
  let q1 := with_mf (firpfb_crcf_push (mf q) v)
              (with_mixer (nco_crcf_step (mixer q)) q) in
  let y := firpfb_crcf_execute (mf q1) (pfb_index q) in
  qdsync_cccf_step q x =
    if k q - 1 <=? mf_counter q + 1
    then '(_, q') ← qdsync_cccf_buf_append
                      (with_mf_counter (mf_counter q + 1 - k q) q1) y;
         Done (LIQUID_OK, q')
    else Done (LIQUID_OK, with_mf_counter (mf_counter q + 1) q1).
Proof.
  intros Hk Hc. cbv zeta. unfold qdsync_cccf_step. cbn.
  unfold INT_MAX in Hk, Hc.
  assert (Hs : sint (mf_counter q + 1) = mf_counter q + 1)
    by (apply sint_small; unfold INT_MIN, INT_MAX; lia).
  rewrite Hs.
  rewrite int_geu_nonneg by (unfold UINT_MOD; lia).
  destruct (k q - 1 <=? mf_counter q + 1) eqn:E; [|done].
  apply Z.leb_le in E.
  rewrite uint_small by (unfold UINT_MOD; lia).
  rewrite sint_small by (unfold INT_MIN, INT_MAX; lia).
  done.
Qed.

(** C2: a step in tracking state mixes the sample down, advances the
    mixer, pushes the mixed sample into the filter bank and reads branch
    [pfb_index]; the timing counter is incremented, and exactly when the
    incremented counter is at least [k - 1] it is decreased by [k] and
    the filtered sample goes to the output buffer; otherwise the step
    leaves the output side alone. *)
Theorem C2_step_decimation q x :
  1 <= k q <= INT_MAX ->
  -1 <= mf_counter q < INT_MAX ->
  let v := nco_crcf_mix_down (mixer q) x in
  let q1 := with_mf (firpfb_crcf_push (mf q) v)
              (with_mixer (nco_crcf_step (mixer q)) q) in
  let y := firpfb_crcf_execute (mf q1) (pfb_index q) in
  qdsync_cccf_step q x =
    (if k q - 1 <=? mf_counter q + 1
     then '(_, q') ← qdsync_cccf_buf_append
                       (with_mf_counter (mf_counter q + 1 - k q) q1) y;
          Done (LIQUID_OK, q')
     else Done (LIQUID_OK, with_mf_counter (mf_counter q + 1) q1))
  /\ (mf_counter q + 1 < k q - 1 ->
      exists q',
        qdsync_cccf_step q x = Done (LIQUID_OK, q')
        /\ buf_out q' = buf_out q /\ buf_out_counter q' = buf_out_counter q
        /\ symbol_counter q' = symbol_counter q /\ cb_log q' = cb_log q).
Proof.
  intros Hk Hc v q1 y. pose proof (step_in_range q x Hk Hc) as Hstep.
  cbv zeta in Hstep. split; [exact Hstep|].
  intros Hlt. rewrite Hstep.
  destruct (Z.leb_spec (k q - 1) (mf_counter q + 1)); [lia|].
  eexists. by split.
Qed.

(** *** Filter-delay compensation *)

Lemma with_symbol_counter_same q : with_symbol_counter (symbol_counter q) q = q.
Proof. by destruct q. Qed.

(** While the incremented symbol counter is at most [2 * m], the append
    only counts. *)
Lemma buf_append_discard q x :
  uint (symbol_counter q + 1) <= uint (2 * m q) ->
  qdsync_cccf_buf_append q x
  = Done (LIQUID_OK, with_symbol_counter (uint (symbol_counter q + 1)) q).
Proof.
  intros Hle. unfold qdsync_cccf_buf_append. cbn.
  destruct (Z.leb_spec (uint (symbol_counter q + 1)) (uint (2 * m q))); [done|lia].
Qed.

(** Past the delay the sample is stored at the cursor; neither the
    callback nor a reset touches the cells of the buffer. *)
Lemma buf_append_store q x :
  uint (2 * m q) < uint (symbol_counter q + 1) ->
  0 <= buf_out_counter q < Z.of_nat (length (buf_out q)) ->
  exists rc q',
    qdsync_cccf_buf_append q x = Done (rc, q')
    /\ buf_out q' = <[Z.to_nat (buf_out_counter q) := x]> (buf_out q).
Proof.
  intros Hgt Hc. unfold qdsync_cccf_buf_append. cbn.
  destruct (Z.leb_spec (uint (symbol_counter q + 1)) (uint (2 * m q))); [lia|].
  rewrite store_Done by done. cbn.
  destruct (Z.eqb_spec (uint (buf_out_counter q + 1)) (buf_out_len q)) as [Hfull|]; cbn;
    [|eauto].
  destruct (callback q) as [cb|]; [|eauto].
  unfold invoke_callback. cbn.
  pose proof (uint_range (buf_out_counter q + 1)).
  assert (uint (buf_out_counter q + 1) <= buf_out_counter q + 1).
  { unfold uint. apply Z.mod_le; unfold UINT_MOD; lia. }
  rewrite read_window_Done by (rewrite ?length_insert; lia). cbn.
  destruct (cb _ _) as [rc c]. cbn.
  destruct (rc =? 0); cbn; eauto.
Qed.

Lemma append_all_discard xs q :
  0 <= symbol_counter q ->
  2 * m q < UINT_MOD ->
  symbol_counter q + Z.of_nat (length xs) <= 2 * m q ->
  append_all q xs
  = Done (with_symbol_counter (symbol_counter q + Z.of_nat (length xs)) q).
Proof.
  revert q. induction xs as [|x xs IH]; intros q H0 Hm Hle.
  - cbn. rewrite Z.add_0_r. by rewrite with_symbol_counter_same.
  - cbn [append_all length] in *.
    assert (Hu : uint (symbol_counter q + 1) = symbol_counter q + 1)
      by (apply uint_small; lia).
    rewrite buf_append_discard by (rewrite Hu, uint_small; lia).
    cbn. rewrite Hu. rewrite IH by (cbn; lia).
    unfold with_symbol_counter. cbn. do 2 f_equal. lia.
Qed.

(** C4: on an object whose symbol counter is zero, as a reset leaves it,
    the first [2 * m] appended samples are only counted: after any number
    [n <= 2 * m] of them the object differs from the initial one in the
    symbol counter alone, so the buffer, the cursor and the callback log
    are untouched; the next sample is the first one stored, at the
    cursor. *)
Theorem C4_filter_delay_gating q xs x :
  symbol_counter q = 0 ->
  0 <= 2 * m q < UINT_MOD ->
  Z.of_nat (length xs) = 2 * m q ->
  0 <= buf_out_counter q < Z.of_nat (length (buf_out q)) ->
  (forall n : nat, (n <= length xs)%nat ->
     append_all q (take n xs) = Done (with_symbol_counter (Z.of_nat n) q))
  /\ exists rc q',
       (q2 ← append_all q xs; qdsync_cccf_buf_append q2 x) = Done (rc, q')
       /\ buf_out q' = <[Z.to_nat (buf_out_counter q) := x]> (buf_out q)
       /\ buf_out q' !! Z.to_nat (buf_out_counter q) = Some x.
Proof.
  intros H0 Hm Hlen Hc. split.
  - intros n Hn.
    rewrite append_all_discard by (rewrite ?length_take; lia).
    rewrite length_take, H0. do 2 f_equal. lia.
  - rewrite append_all_discard by lia. cbn.
    destruct (buf_append_store (with_symbol_counter (symbol_counter q + Z.of_nat (length xs)) q) x)
      as (rc & q' & Hq & Hb).
    + cbn. rewrite !uint_small; unfold UINT_MOD in *; lia.
    + done.
    + exists rc, q'. split; [done|]. split; [done|].
      rewrite Hb. cbn. apply list_lookup_insert_eq. lia.
Qed.

(** *** Resizing the output buffer *)

Lemma div_mod_step (c L : Z) :
  1 <= L <= c -> c / L = 1 + (c - L) / L /\ c mod L = (c - L) mod L.
Proof.
  intros HL.
  replace c with ((c - L) + 1 * L) at 1 3 by lia.
  rewrite Z_div_plus_full, Z_mod_plus_full by lia. lia.
Qed.

Lemma take_add_drop {A : Type} (l : list A) (a n : nat) :
  (a <= length l)%nat -> take a l ++ take n (drop a l) = take (a + n) l.
Proof.
  intros Ha. rewrite <- (take_drop a l) at 3.
  by rewrite take_app_add' by (rewrite length_take; lia).
Qed.

Lemma flushed_nothing q : flushed (context q) [] (buf_out_counter q) q = q.
Proof. destruct q. unfold flushed. cbn. by rewrite app_nil_r. Qed.

(** The loop of the shrink path ends: it makes [c / L] rounds, each one
    delivering the next [L] samples when a callback is installed, and
    leaves [c mod L] samples counted, with the read offset past the
    delivered ones. *)
Lemma set_buf_len_loop_spec (fuel : nat) (L : Z) q (index : Z) :
  1 <= L ->
  0 <= index ->
  0 <= buf_out_counter q ->
  index + buf_out_counter q <= Z.of_nat (length (buf_out q)) ->
  index + buf_out_counter q < UINT_MOD ->
  (Z.to_nat (buf_out_counter q) <= fuel)%nat ->
  let c := buf_out_counter q in
  exists ctx windows,
    set_buf_len_loop fuel L q index
    = Done (flushed ctx windows (c mod L) q, index + L * (c / L))
    /\ (is_Some (callback q) ->
        Z.of_nat (length windows) = c / L
        /\ Forall (fun w => Z.of_nat (length w) = L) windows
        /\ concat windows
           = take (Z.to_nat (L * (c / L))) (drop (Z.to_nat index) (buf_out q)))
    /\ (callback q = None -> windows = [] /\ ctx = context q)
    /\ (forall cb, callback q = Some cb -> ctx = consume cb windows (context q)).
Proof.
  revert q index. induction fuel as [|fuel IH]; intros q index HL Hi Hc Hlen Hmax Hfuel c;
    subst c.
  - assert (buf_out_counter q = 0) as Hz by lia.
    exists (context q), []. cbn. rewrite Hz.
    destruct (Z.leb_spec L 0); [lia|].
    rewrite Z.mod_0_l, Z.div_0_l by lia.
    rewrite <- Hz at 1. rewrite flushed_nothing, Z.mul_0_r, Z.add_0_r.
    split; [done|]. split; [|done]. intros _. cbn. by rewrite take_0.
  - cbn [set_buf_len_loop].
    destruct (Z.leb_spec L (buf_out_counter q)) as [Hge|Hlt].
    + destruct (div_mod_step (buf_out_counter q) L) as [Hdiv Hmod]; [lia|].
      assert (Hu1 : uint (index + L) = index + L) by (apply uint_small; lia).
      assert (Hu2 : uint (buf_out_counter q - L) = buf_out_counter q - L)
        by (apply uint_small; lia).
      assert (Hq : 0 <= (buf_out_counter q - L) / L) by (apply Z.div_pos; lia).
      destruct (callback q) as [cb|] eqn:Hcb.
      * unfold invoke_callback.
        rewrite read_window_Done by lia. cbn.
        destruct (cb _ (context q)) as [rc ctx1] eqn:Hrun. cbn.
        rewrite Hu1, Hu2.
        set (w := take (Z.to_nat L) (drop (Z.to_nat index) (buf_out q))) in *.
        destruct (IH (with_buf_out_counter (buf_out_counter q - L)
                        (with_cb_log (cb_log q ++ [w]) (with_context ctx1 q)))
                     (index + L))
          as (ctx & windows & Hrun' & Hsome & _ & Hctx); cbn; try lia.
        exists ctx, (w :: windows). rewrite Hrun'. cbn.
        split.
        { unfold flushed. cbn. rewrite <- app_assoc. cbn.
          rewrite Hmod, Hdiv. do 2 f_equal. lia. }
        split; [|split; [done|]]; cycle 1.
        { intros cb' Hcb'. assert (cb' = cb) as -> by congruence.
          unfold consume. cbn [fold_left]. rewrite Hrun. exact (Hctx cb Hcb). }
        intros _.
        destruct Hsome as (Hn & Hall & Hcat); [cbn; rewrite Hcb; by eexists|].
        cbn in Hn, Hcat.
        assert (Hw : length w = Z.to_nat L).
        { unfold w. rewrite length_take, length_drop. lia. }
        split; [cbn [length]; lia|].
        split; [constructor; [lia|done]|].
        cbn [concat]. rewrite Hcat.
        rewrite Z2Nat.inj_add, <- drop_drop by lia.
        unfold w. rewrite take_add_drop by (rewrite length_drop; lia).
        f_equal. rewrite Hdiv. lia.
      * cbn. rewrite Hu1, Hu2.
        destruct (IH (with_buf_out_counter (buf_out_counter q - L) q) (index + L))
          as (ctx & windows & Hrun' & _ & Hnone & _); cbn; try lia.
        destruct Hnone as [-> ->]; [by cbn|].
        exists (context q), []. rewrite Hrun'. cbn.
        split; [|split; [by intros []|done]].
        unfold flushed. cbn. rewrite Hmod, Hdiv. do 2 f_equal. lia.
    + exists (context q), [].
      rewrite Z.mod_small, Z.div_small by lia.
      rewrite flushed_nothing, Z.mul_0_r, Z.add_0_r.
      split; [done|]. split; [|done]. intros _. cbn. by rewrite take_0.
Qed.

(** The shrink path as a whole. *)
Lemma set_buf_len_shrink q (L : Z) r :
  1 <= L <= buf_out_counter q ->
  buf_out_counter q <= Z.of_nat (length (buf_out q)) ->
  buf_out_counter q < UINT_MOD ->
  let c := buf_out_counter q in
  let tail := take (Z.to_nat (c mod L)) (drop (Z.to_nat (L * (c / L))) (buf_out q)) in
  exists ctx windows,
    qdsync_cccf_set_buf_len q L r
    = Done (resized r (with_buf_out_len L
                         (with_buf_out (tail ++ drop (length tail) (buf_out q))
                            (flushed ctx windows (c mod L) q))))
    /\ (is_Some (callback q) ->
        Z.of_nat (length windows) = c / L
        /\ Forall (fun w => Z.of_nat (length w) = L) windows
        /\ concat windows = take (Z.to_nat (L * (c / L))) (buf_out q))
    /\ (callback q = None -> windows = [] /\ ctx = context q)
    /\ (forall cb, callback q = Some cb -> ctx = consume cb windows (context q)).
Proof.
  intros HL Hlen Hmax c tail.
  destruct (set_buf_len_loop_spec (Z.to_nat c) L q 0) as (ctx & windows & Hrun & Hw);
    try (fold c; lia).
  exists ctx, windows.
  split; [|change (Z.to_nat 0) with O in Hw; by rewrite drop_0 in Hw].
  unfold qdsync_cccf_set_buf_len.
  destruct (Z.eqb_spec L 0); [lia|].
  destruct (Z.ltb_spec (buf_out_counter q) L); [lia|].
  fold c in Hrun |- *. rewrite Hrun. cbn.
  pose proof (Z.mod_pos_bound c L).
  pose proof (Z.div_mod c L).
  assert (0 <= c / L) by (apply Z.div_pos; fold c in HL; lia).
  unfold memmove_front.
  rewrite read_window_Done by (fold c in Hlen; nia).
  rewrite Z.add_0_l. cbn. fold tail. unfold resized. cbn.
  by destruct (realloc _ L r).
Qed.

(** C3: a shrink to [L >= 1] of a buffer that holds [c >= L] samples, with
    a callback installed, calls the callback [c / L] times, each time on
    [L] samples, and the delivered windows are, in order, the first
    [L * (c / L)] buffered samples: the context the call leaves is the one
    the callback itself produces when it is given these windows one after
    the other.  Afterwards the first [c mod L] cells hold the samples that
    followed them, the cursor is [c mod L] and the recorded capacity is
    [L]. *)
Theorem C3_shrink_delivers_full_windows q (L : Z) (cb : qdsync_callback C) r :
  callback q = Some cb ->
  1 <= L <= buf_out_counter q ->
  buf_out_counter q <= Z.of_nat (length (buf_out q)) ->
  buf_out_counter q < UINT_MOD ->
  let c := buf_out_counter q in
  exists rc q' windows,
    qdsync_cccf_set_buf_len q L r = Done (rc, q')
    /\ cb_log q' = cb_log q ++ windows
    /\ context q' = consume cb windows (context q)
    /\ Z.of_nat (length windows) = c / L
    /\ Forall (fun w => Z.of_nat (length w) = L) windows
    /\ concat windows = take (Z.to_nat (L * (c / L))) (buf_out q)
    /\ take (Z.to_nat (c mod L)) (buf_out q')
       = take (Z.to_nat (c mod L)) (drop (Z.to_nat (L * (c / L))) (buf_out q))
    /\ buf_out_counter q' = c mod L
    /\ buf_out_len q' = L
    /\ (r <> ReallocNull -> rc = LIQUID_OK /\ Z.of_nat (length (buf_out q')) = L).
Proof.
  intros Hcb HL Hlen Hmax c.
  destruct (set_buf_len_shrink q L r) as (ctx & windows & Hrun & Hsome & _ & Hctx);
    [done..|].
  destruct Hsome as (Hn & Hall & Hcat); [by rewrite Hcb|].
  specialize (Hctx cb Hcb).
  fold c in Hrun, Hn, Hcat.
  pose proof (Z.mod_pos_bound c L).
  pose proof (Z.div_mod c L).
  assert (0 <= c / L) by (apply Z.div_pos; fold c in HL; lia).
  set (tail := take (Z.to_nat (c mod L)) (drop (Z.to_nat (L * (c / L))) (buf_out q)))
    in *.
  assert (Htail : length tail = Z.to_nat (c mod L)).
  { unfold tail. rewrite length_take, length_drop. fold c in Hlen. nia. }
  rewrite Hrun. unfold resized. cbn.
  destruct r as [|junk]; cbn.
  - eexists _, _, windows. split; [done|]. cbn.
    repeat (split; [done|]).
    split; [|split; [done|split; [done|done]]].
    rewrite <- Htail. by rewrite take_app_length.
  - eexists _, _, windows. split; [done|]. cbn.
    repeat (split; [done|]).
    split; [|split; [done|split; [done|]]].
    + rewrite take_app_le by (rewrite length_take, length_app, length_drop; lia).
      rewrite take_take, Nat.min_l by lia.
      rewrite <- Htail. by rewrite take_app_length.
    + intros _. split; [done|].
      rewrite length_app, length_take, length_app, length_drop, length_replicate.
      fold c in Hlen. lia.
Qed.

(** The grow path as a whole: the new length is recorded first, then the
    block is reallocated. *)
Lemma set_buf_len_grow q (L : Z) r :
  L <> 0 ->
  buf_out_counter q < L ->
  qdsync_cccf_set_buf_len q L r = Done (resized r (with_buf_out_len L q)).
Proof.
  intros HL Hc. unfold qdsync_cccf_set_buf_len, resized.
  destruct (Z.eqb_spec L 0); [done|].
  destruct (Z.ltb_spec (buf_out_counter q) L); [|lia].
  cbn. by destruct (realloc _ L r).
Qed.

(** C7: a resize to a length above the number of buffered samples keeps
    every buffered sample in its cell, records the new capacity, keeps
    the cursor and calls no callback. *)
Theorem C7_grow_preserves_samples q (L : Z) r :
  0 <= buf_out_counter q < L ->
  buf_out_counter q <= Z.of_nat (length (buf_out q)) ->
  exists rc q',
    qdsync_cccf_set_buf_len q L r = Done (rc, q')
    /\ (forall i : nat, Z.of_nat i < buf_out_counter q ->
          buf_out q' !! i = buf_out q !! i)
    /\ buf_out_len q' = L
    /\ buf_out_counter q' = buf_out_counter q
    /\ cb_log q' = cb_log q
    /\ context q' = context q
    /\ (r <> ReallocNull -> rc = LIQUID_OK /\ Z.of_nat (length (buf_out q')) = L).
Proof.
  intros Hc Hlen. rewrite set_buf_len_grow by lia.
  unfold resized. cbn. destruct r as [|junk]; cbn.
  - eexists _, _. split; [done|]. cbn. by repeat split.
  - eexists _, _. split; [done|]. cbn.
    split; [|do 4 (split; [done|])].
    + intros i Hi.
      rewrite lookup_app_l by (rewrite length_take; lia).
      apply lookup_take_lt. lia.
    + intros _. split; [done|].
      rewrite length_app, length_take, length_replicate. lia.
Qed.

(** *** The callback protocol *)

(** When the buffer fills and the callback answers a value other than
    zero, the append ends with a reset of the synchronizer. *)
Lemma buf_append_callback_restart q x (cb : qdsync_callback C) :
  callback q = Some cb ->
  uint (2 * m q) < uint (symbol_counter q + 1) ->
  0 <= buf_out_counter q < Z.of_nat (length (buf_out q)) ->
  uint (buf_out_counter q + 1) = buf_out_len q ->
  let b := <[Z.to_nat (buf_out_counter q) := x]> (buf_out q) in
  let w := take (Z.to_nat (buf_out_len q)) b in
  fst (cb w (context q)) <> 0 ->
  qdsync_cccf_buf_append q x
  = Done (qdsync_cccf_reset
            (with_cb_log (cb_log q ++ [w])
               (with_context (snd (cb w (context q)))
                  (with_buf_out_counter 0
                     (with_buf_out b
                        (with_symbol_counter (uint (symbol_counter q + 1)) q)))))).
Proof.
  intros Hcb Hgt Hc Hfull b w Hrc. unfold qdsync_cccf_buf_append. cbn.
  destruct (Z.leb_spec (uint (symbol_counter q + 1)) (uint (2 * m q))); [lia|].
  rewrite store_Done by done. cbn.
  destruct (Z.eqb_spec (uint (buf_out_counter q + 1)) (buf_out_len q)); [|done].
  cbn. rewrite Hcb. unfold invoke_callback. cbn.
  assert (uint (buf_out_counter q + 1) <= buf_out_counter q + 1).
  { unfold uint. apply Z.mod_le; unfold UINT_MOD; lia. }
  pose proof (uint_range (buf_out_counter q + 1)).
  rewrite read_window_Done by (rewrite ?length_insert; lia).
  cbn. rewrite drop_0. fold b. fold w.
  destruct (cb w (context q)) as [rc ctx]. cbn in *.
  by destruct (Z.eqb_spec rc 0).
Qed.

(** C10: without a callback an append past the filter delay succeeds,
    logs no delivery and leaves state and context alone; when it fills
    the buffer the cursor goes back to zero and nothing else is reset.  A
    shrink succeeds too: it delivers nothing, and keeps at the front the
    [c mod L] samples that follow the skipped windows. *)
Theorem C10_no_callback q :
  callback q = None ->
  (forall x,
     0 <= buf_out_counter q < Z.of_nat (length (buf_out q)) ->
     exists q',
       qdsync_cccf_buf_append q x = Done (LIQUID_OK, q')
       /\ cb_log q' = cb_log q /\ context q' = context q /\ state q' = state q
       /\ detector q' = detector q
       /\ symbol_counter q' = uint (symbol_counter q + 1)
       /\ (uint (2 * m q) < uint (symbol_counter q + 1) ->
           uint (buf_out_counter q + 1) = buf_out_len q ->
           buf_out_counter q' = 0))
  /\ (forall (L : Z) junk,
        1 <= L <= buf_out_counter q ->
        buf_out_counter q <= Z.of_nat (length (buf_out q)) ->
        buf_out_counter q < UINT_MOD ->
        let c := buf_out_counter q in
        exists q',
          qdsync_cccf_set_buf_len q L (ReallocOk junk) = Done (LIQUID_OK, q')
          /\ cb_log q' = cb_log q /\ context q' = context q /\ state q' = state q
          /\ buf_out_counter q' = c mod L
          /\ buf_out_len q' = L
          /\ take (Z.to_nat (c mod L)) (buf_out q')
             = take (Z.to_nat (c mod L)) (drop (Z.to_nat (L * (c / L))) (buf_out q))).
Proof.
  intros Hcb. split.
  - intros x Hc. unfold qdsync_cccf_buf_append. cbn.
    destruct (Z.leb_spec (uint (symbol_counter q + 1)) (uint (2 * m q))).
    { eexists. split; [done|]. cbn. repeat split; try done. lia. }
    rewrite store_Done by done. cbn.
    destruct (Z.eqb_spec (uint (buf_out_counter q + 1)) (buf_out_len q)); cbn.
    + rewrite Hcb. eexists. split; [done|]. cbn. by repeat split.
    + eexists. split; [done|]. cbn. by repeat split.
  - intros L junk HL Hlen Hmax c.
    destruct (set_buf_len_shrink q L (ReallocOk junk)) as (ctx & windows & Hrun & _ & Hnone & _);
      [done..|].
    destruct Hnone as [-> ->]; [done|].
    fold c in Hrun. rewrite Hrun. unfold resized. cbn.
    eexists. split; [done|]. cbn.
    pose proof (Z.mod_pos_bound c L).
    pose proof (Z.div_mod c L).
    assert (0 <= c / L) by (apply Z.div_pos; fold c in HL; lia).
    set (tail := take (Z.to_nat (c mod L)) (drop (Z.to_nat (L * (c / L))) (buf_out q))).
    assert (Htail : length tail = Z.to_nat (c mod L)).
    { unfold tail. rewrite length_take, length_drop. fold c in Hlen. nia. }
    split; [by rewrite app_nil_r|]. repeat (split; [done|]).
    rewrite take_app_le by (rewrite length_take, length_app, length_drop; lia).
    rewrite take_take, Nat.min_l by lia.
    rewrite <- Htail. by rewrite take_app_length.
Qed.

(** *** The handoff from detection to tracking *)

Lemma sint_add_mod (z : Z) : sint (z + UINT_MOD) = sint z.
Proof.
  unfold sint, UINT_MOD.
  replace (z + 2 ^ 32 + 2 ^ 31) with (z + 2 ^ 31 + 1 * 2 ^ 32) by lia.
  by rewrite Z_mod_plus_full.
Qed.

(** C1, as the code has it: the branch index is the product of the timing
    estimate and [npfb] cut toward zero by the cast to [int], not
    rounded; a negative index is raised by [npfb]; the timing counter is
    [k - 2], and [k - 1] exactly when the index was negative. *)
Theorem C1_handoff_truncates q (index : Z) :
  f32_trunc (f32_mul (qdetector_cccf_get_tau (detector q)) (f32_of_Z (npfb q)))
    = Some index ->
  - npfb q <= index <= INT_MAX ->
  0 < npfb q <= INT_MAX ->
  0 <= k q <= INT_MAX ->
  exists q',
    qdsync_cccf_handoff q = Done q'
    /\ state q' = QDSYNC_STATE_SYNC
    /\ pfb_index q' = (if index <? 0 then index + npfb q else index)
    /\ mf_counter q' = (if index <? 0 then k q - 1 else k q - 2).
Proof.
  intros Htr Hi Hn Hk. unfold INT_MAX in *.
  assert (Hcast : f32_to_int (f32_mul (qdetector_cccf_get_tau (detector q))
                                (f32_of_Z (npfb q))) = Done index).
  { apply f32_to_int_Done. split; [done|]. unfold INT_MIN, INT_MAX. lia. }
  unfold qdsync_cccf_handoff. cbn. rewrite Hcast. cbn.
  assert (Hk2 : sint (uint (k q - 2)) = k q - 2).
  { rewrite sint_uint. apply sint_small. unfold INT_MIN, INT_MAX. lia. }
  destruct (Z.ltb_spec index 0) as [Hneg|Hpos]; cbn.
  - eexists. split; [done|]. cbn. split; [done|].
    rewrite Hk2.
    rewrite (uint_neg index) by (unfold UINT_MOD; lia).
    replace (index + UINT_MOD + npfb q) with (index + npfb q + UINT_MOD) by lia.
    rewrite sint_add_mod.
    rewrite (sint_small (index + npfb q)) by (unfold INT_MIN, INT_MAX; lia).
    rewrite uint_small by (unfold UINT_MOD; lia).
    split; [done|].
    rewrite sint_small by (unfold INT_MIN, INT_MAX; lia). lia.
  - eexists. split; [done|]. cbn. split; [done|].
    rewrite uint_small by (unfold UINT_MOD; lia). by rewrite Hk2.
Qed.

(** *** The state field *)

Lemma reset_state q : state (snd (qdsync_cccf_reset q)) = QDSYNC_STATE_DETECT.
Proof. done. Qed.

Lemma create_state junk _seq _seq_len _ftype _k _m _beta
    (_callback : option (qdsync_callback C)) (_context : C) q :
  qdsync_cccf_create_linear (D:=D) (N:=N) (F:=F) junk _seq _seq_len _ftype _k _m
    _beta _callback _context = Some q ->
  state q = QDSYNC_STATE_DETECT.
Proof.
  unfold qdsync_cccf_create_linear.
  destruct (_seq_len =? 0); [done|]. intros Hq.
  injection Hq as <-. apply reset_state.
Qed.

Lemma invoke_callback_state (cb : qdsync_callback C) q index n rc q' :
  invoke_callback cb q index n = Done (rc, q') -> state q' = state q.
Proof.
  unfold invoke_callback. destruct (read_window _ _ _); [|done..]. cbn.
  destruct (cb _ _). by intros [= _ <-].
Qed.

Lemma set_buf_len_loop_state fuel (L : Z) q index q' index' :
  set_buf_len_loop fuel L q index = Done (q', index') -> state q' = state q.
Proof.
  revert q index. induction fuel as [|fuel IH]; intros q index; cbn.
  - destruct (L <=? buf_out_counter q); [done|]. by intros [= <- _].
  - destruct (L <=? buf_out_counter q); [|by intros [= <- _]].
    destruct (callback q) as [cb|]; cbn.
    + destruct (invoke_callback cb q index L) as [[rc q1]| |] eqn:Hcb; [|done..].
      cbn. intros Hrun. apply IH in Hrun.
      apply invoke_callback_state in Hcb. cbn in Hrun. congruence.
    + intros Hrun. by apply IH in Hrun.
Qed.

Lemma set_buf_len_state q (L : Z) r rc q' :
  qdsync_cccf_set_buf_len q L r = Done (rc, q') -> state q' = state q.
Proof.
  unfold qdsync_cccf_set_buf_len.
  destruct (L =? 0); [by intros [= _ <-]|].
  destruct (buf_out_counter q <? L).
  - cbn. destruct (realloc _ _ r); by intros [= _ <-].
  - destruct (set_buf_len_loop _ L q 0) as [[q1 index]| |] eqn:Hloop; [|done..].
    apply set_buf_len_loop_state in Hloop. cbn.
    destruct (memmove_front _ _ _); [|done..]. cbn.
    destruct (realloc _ _ r); by intros [= _ <-].
Qed.

Lemma buf_append_state_known q x rc q' :
  state_known q -> qdsync_cccf_buf_append q x = Done (rc, q') -> state_known q'.
Proof.
  intros Hq. unfold qdsync_cccf_buf_append. cbn.
  destruct (_ <=? _); [by intros [= _ <-]|].
  destruct (store _ _ _); [|done..]. cbn.
  destruct (_ =? buf_out_len q); [|by intros [= _ <-]].
  cbn. destruct (callback q) as [cb|]; [|by intros [= _ <-]].
  destruct (invoke_callback cb _ _ _) as [[rc1 q1]| |] eqn:Hcb; [|done..].
  apply invoke_callback_state in Hcb. cbn in *.
  destruct (rc1 =? 0); intros [= _ <-]; [|by left].
  unfold state_known in *. by rewrite Hcb.
Qed.

Lemma step_state_known q x rc q' :
  state_known q -> qdsync_cccf_step q x = Done (rc, q') -> state_known q'.
Proof.
  intros Hq. unfold qdsync_cccf_step. cbn.
  destruct (int_geu _ _); [|by intros [= _ <-]].
  destruct (qdsync_cccf_buf_append _ _) as [[rc1 q1]| |] eqn:Happ; [|done..].
  cbn. intros [= _ <-]. by eapply buf_append_state_known, Happ.
Qed.

Lemma handoff_state q q' :
  qdsync_cccf_handoff q = Done q' -> state q' = QDSYNC_STATE_SYNC.
Proof.
  unfold qdsync_cccf_handoff. cbn.
  destruct (f32_to_int _) as [index| |]; [|done..]. cbn.
  destruct (index <? 0); by intros [= <-].
Qed.

Lemma execute_loop_state_known detect xs q rc q' :
  keeps_state_known detect ->
  state_known q ->
  execute_loop detect q xs = Done (rc, q') ->
  state_known q' /\ rc = LIQUID_OK.
Proof.
  intros Hdet. revert q. induction xs as [|x xs IH]; intros q Hq; cbn.
  - by intros [= <- <-].
  - destruct Hq as [Hq|Hq]; rewrite Hq; cbn.
    + destruct (detect q x) as [[rc1 q1]| |] eqn:Hd; [|done..]. cbn.
      apply IH. eapply Hdet, Hd. by left.
    + destruct (qdsync_cccf_step q x) as [[rc1 q1]| |] eqn:Hs; [|done..]. cbn.
      apply IH. eapply step_state_known, Hs. by right.
Qed.

Lemma execute_detect_with_state_known exec :
  (forall q xs rc q', state_known q -> exec q xs = Done (rc, q') -> state_known q') ->
  keeps_state_known (qdsync_cccf_execute_detect_with exec).
Proof.
  intros Hexec q x rc q' Hq. unfold qdsync_cccf_execute_detect_with.
  destruct (qdetector_cccf_execute (detector q) x) as [d [v|]]; [|by intros [= _ <-]].
  destruct (qdsync_cccf_handoff _) as [q1| |] eqn:Hh; [|done..]. cbn.
  destruct (exec q1 v) as [[rc2 q2]| |] eqn:He; [|done..]. cbn.
  intros [= _ <-]. eapply Hexec, He. right. by eapply handoff_state.
Qed.

(** From a known state [qdsync_cccf_execute] never takes its default
    branch: whenever it returns, it returns [LIQUID_OK] and leaves a known
    state. *)
Lemma execute_state_known fuel q xs rc q' :
  state_known q ->
  qdsync_cccf_execute fuel q xs = Done (rc, q') ->
  state_known q' /\ rc = LIQUID_OK.
Proof.
  revert q xs rc q'. induction fuel as [|fuel IH]; intros q xs rc q' Hq; [done|].
  cbn. apply execute_loop_state_known; [|done].
  apply execute_detect_with_state_known.
  intros q1 ys rc1 q1' Hq1 Hrun. by destruct (IH _ _ _ _ Hq1 Hrun).
Qed.

Lemma api_run_state_known q c rc q' :
  state_known q -> api_run q c = Done (rc, q') -> state_known q'.
Proof.
  intros Hq. destruct c; cbn.
  - intros Hrun. by destruct (execute_state_known _ _ _ _ _ Hq Hrun).
  - intros [= _ <-]. by left.
  - destruct (read_window _ _ _); [|done..]. by intros [= _ <-].
  - unfold qdsync_cccf_set_threshold.
    destruct (qdetector_cccf_set_threshold _ _). by intros [= _ <-].
  - unfold qdsync_cccf_set_range.
    destruct (qdetector_cccf_set_range _ _). by intros [= _ <-].
  - by intros [= _ <-].
  - by intros [= _ <-].
  - intros Hrun. apply set_buf_len_state in Hrun.
    unfold state_known in *. by rewrite Hrun.
Qed.

Lemma reachable_state_known q : reachable q -> state_known q.
Proof.
  induction 1 as [? ? ? ? ? ? ? ? ? q Hc|q c rc q' _ IH Hrun].
  - left. by eapply create_state.
  - by eapply api_run_state_known.
Qed.

Lemma api_run_all_reachable q cs q' :
  reachable q -> api_run_all q cs = Done q' -> reachable q'.
Proof.
  revert q. induction cs as [|c cs IH]; intros q Hq; cbn.
  - by intros [= <-].
  - destruct (api_run q c) as [[rc q1]| |] eqn:Hrun; [|done..]. cbn.
    apply IH. by eapply reachable_call.
Qed.

(** C9: after creation and any sequence of calls the state field is
    [QDSYNC_STATE_DETECT] or [QDSYNC_STATE_SYNC], and a further call of
    [qdsync_cccf_execute] that returns does not return the internal error
    of the unknown-state branch: it returns [LIQUID_OK]. *)
Theorem C9_state_stays_known junk (_seq : list cfloat) _seq_len _ftype _k _m _beta
    (_callback : option (qdsync_callback C)) (_context : C) q0 cs q :
  qdsync_cccf_create_linear (D:=D) (N:=N) (F:=F) junk _seq _seq_len _ftype _k _m
    _beta _callback _context = Some q0 ->
  api_run_all q0 cs = Done q ->
  state_known q
  /\ forall fuel xs rc q',
       qdsync_cccf_execute fuel q xs = Done (rc, q') ->
       rc = LIQUID_OK /\ rc <> LIQUID_EINT /\ state_known q'.
Proof.
  intros Hc Hrun.
  assert (Hq : state_known q).
  { apply reachable_state_known. eapply api_run_all_reachable, Hrun.
    by eapply reachable_create. }
  split; [done|]. intros fuel xs rc q' Hex.
  destruct (execute_state_known _ _ _ _ _ Hq Hex) as [Hq' ->]. done.
Qed.

(** *** The counters of a run *)

Lemma buf_append_counters q x rc q' :
  counters_ok q ->
  state q = QDSYNC_STATE_SYNC ->
  qdsync_cccf_buf_append q x = Done (rc, q') ->
  counters_ok q'.
Proof.
  intros (Hk & _ & Hmf) Hs. specialize (Hmf Hs).
  unfold qdsync_cccf_buf_append. cbn.
  assert (Hkeep : forall q1 : qdsync_cccf_s D N F C,
             k q1 = k q -> mf_counter q1 = mf_counter q -> state q1 = state q ->
             counters_ok q1).
  { intros q1 E1 E2 E3. unfold counters_ok. rewrite E1, E2, E3, Hs.
    split; [done|]. split; [done|]. intros _. lia. }
  destruct (_ <=? _); [intros [= _ <-]; by apply Hkeep|].
  destruct (store _ _ _); [|done..]. cbn.
  destruct (_ =? buf_out_len q); [|intros [= _ <-]; by apply Hkeep].
  cbn. destruct (callback q) as [cb|]; [|intros [= _ <-]; by apply Hkeep].
  unfold invoke_callback. cbn.
  destruct (read_window _ _ _); [|done..]. cbn.
  destruct (cb _ _) as [rc1 ctx]. cbn.
  destruct (rc1 =? 0); intros [= _ <-]; [by apply Hkeep|].
  unfold counters_ok. cbn. split; [done|]. split; [done|]. done.
Qed.

Lemma step_counters q x rc q' :
  counters_ok q ->
  state q = QDSYNC_STATE_SYNC ->
  qdsync_cccf_step q x = Done (rc, q') ->
  counters_ok q'.
Proof.
  intros Hq Hs. pose proof Hq as (Hk & Hsym & Hmf). specialize (Hmf Hs).
  rewrite step_in_range by (unfold INT_MAX in *; lia). cbv zeta.
  destruct (Z.leb_spec (k q - 1) (mf_counter q + 1)).
  - destruct (qdsync_cccf_buf_append _ _) as [[rc1 q1]| |] eqn:Happ; [|done..].
    cbn. intros [= _ <-]. eapply buf_append_counters, Happ; [|done].
    unfold counters_ok. cbn. rewrite Hs. split; [done|]. split; [done|].
    intros _. lia.
  - intros [= _ <-]. unfold counters_ok. cbn. rewrite Hs.
    split; [done|]. split; [done|]. intros _. lia.
Qed.

Lemma handoff_counters q q' :
  counters_ok q ->
  qdsync_cccf_handoff q = Done q' ->
  counters_ok q' /\ symbol_counter q' = symbol_counter q.
Proof.
  intros (Hk & _ & _). unfold qdsync_cccf_handoff. cbn.
  destruct (f32_to_int _) as [index| |]; [|done..]. cbn.
  assert (Hk2 : sint (uint (k q - 2)) = k q - 2).
  { rewrite sint_uint. apply sint_small. unfold INT_MIN, INT_MAX in *. lia. }
  destruct (index <? 0); intros [= <-]; unfold counters_ok; cbn; rewrite Hk2.
  - rewrite sint_small by (unfold INT_MIN, INT_MAX in *; lia).
    split; [|done]. split; [done|]. split; [done|]. intros _. lia.
  - split; [|done]. split; [done|]. split; [done|]. intros _. lia.
Qed.

Lemma execute_counters fuel q xs rc q' :
  state_known q -> counters_ok q ->
  qdsync_cccf_execute fuel q xs = Done (rc, q') ->
  counters_ok q'.
Proof.
  revert q xs rc q'. induction fuel as [|fuel IH]; intros q xs rc q' Hq Hc; [done|].
  cbn. revert q Hq Hc. induction xs as [|x xs IHxs]; intros q Hq Hc; cbn.
  - by intros [= _ <-].
  - destruct Hq as [Hq|Hq]; rewrite Hq; cbn.
    + unfold qdsync_cccf_execute_detect_with.
      destruct (qdetector_cccf_execute (detector q) x) as [d [v|]]; cbn.
      * destruct (qdsync_cccf_handoff _) as [q1| |] eqn:Hh; [|done..]. cbn.
        destruct (qdsync_cccf_execute fuel q1 v) as [[rc2 q2]| |] eqn:He; [|done..].
        cbn. pose proof (handoff_state _ _ Hh) as Hs1.
        assert (Hcd : counters_ok (with_detector d q)) by exact Hc.
        destruct (handoff_counters _ _ Hcd Hh) as [Hc1 _].
        assert (state_known q1) as Hq1 by by right.
        apply IHxs.
        -- by destruct (execute_state_known _ _ _ _ _ Hq1 He).
        -- by eapply IH, He.
      * apply IHxs; [by left|]. done.
    + destruct (qdsync_cccf_step q x) as [[rc1 q1]| |] eqn:Hs; [|done..]. cbn.
      apply IHxs.
      * eapply step_state_known, Hs. by right.
      * by eapply step_counters, Hs.
Qed.

(** After the handoff of a searching object the symbol counter is zero:
    the filter delay is counted from the first tracking sample. *)
Lemma handoff_symbol_counter q q' :
  counters_ok q ->
  state q = QDSYNC_STATE_DETECT ->
  qdsync_cccf_handoff q = Done q' ->
  symbol_counter q' = 0.
Proof.
  intros Hc Hs Hh. destruct (handoff_counters _ _ Hc Hh) as [_ ->].
  destruct Hc as (_ & Hsym & _). by apply Hsym.
Qed.

(** *** Termination without a callback *)

Lemma step_no_callback q x :
  callback q = None ->
  qdsync_cccf_step q x = Fault
  \/ exists q', qdsync_cccf_step q x = Done (LIQUID_OK, q')
                /\ callback q' = None /\ state q' = state q.
Proof.
  intros Hcb. unfold qdsync_cccf_step. cbn.
  destruct (int_geu _ _); [|right; eexists; by split].
  unfold qdsync_cccf_buf_append. cbn.
  destruct (_ <=? _); cbn; [right; eexists; by split|].
  unfold store.
  destruct (_ && _); cbn; [|by left].
  destruct (_ =? buf_out_len q); cbn; [rewrite Hcb; cbn|]; right; eexists; by split.
Qed.

Lemma handoff_no_callback q :
  qdsync_cccf_handoff q = Fault
  \/ exists q', qdsync_cccf_handoff q = Done q'
                /\ callback q' = callback q /\ state q' = QDSYNC_STATE_SYNC.
Proof.
  unfold qdsync_cccf_handoff. cbn.
  destruct (f32_to_int _) as [index| |] eqn:Hi; cbn; [|by left|].
  - right. destruct (index <? 0); eexists; by split.
  - unfold f32_to_int in Hi. by repeat case_match.
Qed.

(** In tracking state and without a callback the loop of
    [qdsync_cccf_execute] never calls the detector, whatever [detect]
    stands for. *)
Lemma execute_loop_sync_no_callback detect xs q :
  callback q = None ->
  state q = QDSYNC_STATE_SYNC ->
  execute_loop detect q xs = Fault
  \/ exists q', execute_loop detect q xs = Done (LIQUID_OK, q')
                /\ callback q' = None /\ state q' = QDSYNC_STATE_SYNC.
Proof.
  revert q. induction xs as [|x xs IH]; intros q Hcb Hs; cbn.
  - right. by eexists.
  - rewrite Hs. cbn.
    destruct (step_no_callback q x Hcb) as [->|(q1 & -> & Hcb1 & Hs1)]; [by left|].
    cbn. apply IH; [done|]. by rewrite Hs1.
Qed.

Lemma execute_sync_no_callback fuel xs q :
  callback q = None ->
  state q = QDSYNC_STATE_SYNC ->
  qdsync_cccf_execute (S fuel) q xs = Fault
  \/ exists q', qdsync_cccf_execute (S fuel) q xs = Done (LIQUID_OK, q')
                /\ callback q' = None /\ state q' = QDSYNC_STATE_SYNC.
Proof. apply execute_loop_sync_no_callback. Qed.

Lemma execute_detect_no_callback fuel q x :
  callback q = None ->
  state_known q ->
  qdsync_cccf_execute_detect (S fuel) q x = Fault
  \/ exists q', qdsync_cccf_execute_detect (S fuel) q x = Done (LIQUID_OK, q')
                /\ callback q' = None /\ state_known q'.
Proof.
  intros Hcb Hq. unfold qdsync_cccf_execute_detect, qdsync_cccf_execute_detect_with.
  destruct (qdetector_cccf_execute (detector q) x) as [d [v|]].
  - destruct (handoff_no_callback (with_detector d q))
      as [->|(q1 & -> & Hcb1 & Hs1)]; [by left|].
    cbn [mbind res_bind].
    cbn in Hcb1. rewrite Hcb in Hcb1.
    destruct (execute_sync_no_callback fuel v q1 Hcb1 Hs1)
      as [->|(q2 & -> & Hcb2 & Hs2)]; [by left|].
    right. exists q2. split; [done|]. split; [done|by right].
  - right. eexists. split; [done|]. by split.
Qed.

(** Without a callback two levels of calls are enough: the window of a
    detection is processed in tracking state, which nothing leaves. *)
Lemma execute_no_callback_returns fuel xs q :
  callback q = None ->
  state_known q ->
  qdsync_cccf_execute (S (S fuel)) q xs = Fault
  \/ exists q', qdsync_cccf_execute (S (S fuel)) q xs = Done (LIQUID_OK, q')
                /\ callback q' = None /\ state_known q'.
Proof.
  change (qdsync_cccf_execute (S (S fuel)) q xs)
    with (execute_loop (qdsync_cccf_execute_detect (S fuel)) q xs).
  revert q. induction xs as [|x xs IH]; intros q Hcb Hq; cbn [execute_loop].
  - right. by eexists.
  - pose proof Hq as Hq0. destruct Hq as [Hs|Hs]; rewrite Hs.
    + change (QDSYNC_STATE_DETECT =? QDSYNC_STATE_DETECT) with true. cbv iota.
      destruct (execute_detect_no_callback fuel q x Hcb Hq0)
        as [->|(q1 & -> & Hcb1 & Hq1)]; [by left|].
      cbn [mbind res_bind]. by apply IH.
    + change (QDSYNC_STATE_SYNC =? QDSYNC_STATE_DETECT) with false.
      change (QDSYNC_STATE_SYNC =? QDSYNC_STATE_SYNC) with true. cbv iota.
      destruct (step_no_callback q x Hcb) as [->|(q1 & -> & Hcb1 & Hs1)]; [by left|].
      cbn [mbind res_bind]. apply IH; [done|]. right. by rewrite Hs1.
Qed.

Lemma set_buf_len_loop_counters fuel (L : Z) q index q' index' :
  counters_ok q ->
  set_buf_len_loop fuel L q index = Done (q', index') ->
  counters_ok q'.
Proof.
  revert q index. induction fuel as [|fuel IH]; intros q index Hc; cbn.
  - destruct (L <=? buf_out_counter q); [done|]. by intros [= <- _].
  - destruct (L <=? buf_out_counter q); [|by intros [= <- _]].
    destruct (callback q) as [cb|]; cbn.
    + unfold invoke_callback.
      destruct (read_window _ _ _); [|done..]. cbn.
      destruct (cb _ _) as [rc ctx]. cbn. apply IH. exact Hc.
    + apply IH. exact Hc.
Qed.

Lemma set_buf_len_counters q (L : Z) r rc q' :
  counters_ok q ->
  qdsync_cccf_set_buf_len q L r = Done (rc, q') ->
  counters_ok q'.
Proof.
  intros Hc. unfold qdsync_cccf_set_buf_len.
  destruct (L =? 0); [by intros [= _ <-]|].
  destruct (buf_out_counter q <? L).
  - cbn. destruct (realloc _ _ r); intros [= _ <-]; exact Hc.
  - destruct (set_buf_len_loop _ L q 0) as [[q1 index]| |] eqn:Hloop; [|done..].
    apply set_buf_len_loop_counters in Hloop; [|done]. cbn.
    destruct (memmove_front _ _ _); [|done..]. cbn.
    destruct (realloc _ _ r); intros [= _ <-]; exact Hloop.
Qed.

Lemma api_run_counters q c rc q' :
  state_known q -> counters_ok q -> api_run q c = Done (rc, q') -> counters_ok q'.
Proof.
  intros Hq Hc. destruct c; cbn.
  - by apply execute_counters.
  - intros [= _ <-]. destruct Hc as (Hk & _ & _). by split.
  - destruct (read_window _ _ _); [|done..]. intros [= _ <-]. exact Hc.
  - unfold qdsync_cccf_set_threshold.
    destruct (qdetector_cccf_set_threshold _ _). intros [= _ <-]. exact Hc.
  - unfold qdsync_cccf_set_range.
    destruct (qdetector_cccf_set_range _ _). intros [= _ <-]. exact Hc.
  - intros [= _ <-]. exact Hc.
  - intros [= _ <-]. exact Hc.
  - by apply set_buf_len_counters.
Qed.

Lemma create_counters junk _seq _seq_len _ftype _k _m _beta
    (_callback : option (qdsync_callback C)) (_context : C) q :
  qdsync_cccf_create_linear (D:=D) (N:=N) (F:=F) junk _seq _seq_len _ftype _k _m
    _beta _callback _context = Some q ->
  1 <= _k <= INT_MAX ->
  counters_ok q.
Proof.
  unfold qdsync_cccf_create_linear.
  destruct (_ =? 0); [done|]. intros [= <-] Hk. by split.
Qed.

(** Every object a user can hold, made with [1 <= k <= INT_MAX], keeps
    its counters in the ranges that the step and the filter-delay gate
    rely on. *)
Lemma api_run_all_counters q cs q' :
  state_known q -> counters_ok q -> api_run_all q cs = Done q' -> counters_ok q'.
Proof.
  revert q. induction cs as [|c cs IH]; intros q Hq Hc; cbn.
  - by intros [= <-].
  - destruct (api_run q c) as [[rc q1]| |] eqn:Hrun; [|done..]. cbn.
    apply IH.
    + by eapply api_run_state_known.
    + by eapply api_run_counters.
Qed.

End Properties.

(** ** Further properties of the synchronizer *)

Section Stream.

Context {D N F C : Type} `{!QDetector D, !Nco N, !Firpfb F}.

Implicit Types (q : qdsync_cccf_s D N F C) (x : cfloat) (xs : list cfloat).

Lemma take_insert_snoc {A : Type} (l : list A) (n : nat) (a : A) :
  (n < length l)%nat -> take (S n) (<[n := a]> l) = take n l ++ [a].
Proof.
  intros Hn. erewrite take_S_r by (by apply list_lookup_insert_eq).
  by rewrite take_insert_ge by lia.
Qed.

Lemma uint_succ_cursor q :
  buffer_ok q -> uint (buf_out_counter q + 1) = buf_out_counter q + 1.
Proof. intros (Hc & Hl & Hm). apply uint_small. lia. Qed.

(** X1: with a callback installed and the buffer in order, a sample
    appended past the filter delay is never lost: it is the next sample of
    the output stream, whether it stays in the buffer, completes a window
    that is delivered, or completes a window whose delivery ends in a
    restart; the buffer stays in order.  The callback is called exactly
    when the sample fills the buffer, once, on the buffered samples
    followed by the new one, and the context it answers is the context of
    the object afterwards; otherwise log and context are untouched. *)
Theorem append_extends_stream q x (cb : qdsync_callback C) :
  callback q = Some cb ->
  buffer_ok q ->
  uint (2 * m q) < uint (symbol_counter q + 1) ->
  let w := take (Z.to_nat (buf_out_counter q)) (buf_out q) ++ [x] in
  let delivered := if buf_out_counter q + 1 =? buf_out_len q then [w] else [] in
  exists rc q',
    qdsync_cccf_buf_append q x = Done (rc, q')
    /\ out_stream q' = out_stream q ++ [x]
    /\ buffer_ok q'
    /\ cb_log q' = cb_log q ++ delivered
    /\ context q' = consume cb delivered (context q).
Proof.
  intros Hcb Hok Hgt w delivered. pose proof (uint_succ_cursor q Hok) as Hu.
  destruct Hok as (Hc & Hl & Hm).
  unfold qdsync_cccf_buf_append. cbn.
  destruct (Z.leb_spec (uint (symbol_counter q + 1)) (uint (2 * m q))); [lia|].
  rewrite store_Done by lia. cbn. rewrite Hu.
  assert (Htake : take (Z.to_nat (buf_out_counter q + 1))
                    (<[Z.to_nat (buf_out_counter q) := x]> (buf_out q))
                  = w).
  { rewrite Z2Nat.inj_add by lia. rewrite Nat.add_1_r.
    apply take_insert_snoc. lia. }
  subst delivered.
  destruct (Z.eqb_spec (buf_out_counter q + 1) (buf_out_len q)) as [Hfull|Hnot]; cbn.
  - rewrite Hcb. unfold invoke_callback. cbn.
    rewrite read_window_Done by (rewrite ?length_insert; lia).
    cbn. rewrite drop_0, <- Hfull, Htake.
    unfold consume. cbn [fold_left].
    destruct (cb w (context q)) as [rc ctx]. cbn.
    destruct (rc =? 0); cbn; eexists _, _; (split; [done|]);
      unfold out_stream, buffer_ok; cbn;
      rewrite concat_app, length_insert; cbn;
      rewrite !app_nil_r; unfold w at 1; rewrite app_assoc;
      (split; [done|]); (split; [lia|done]).
  - eexists _, _. split; [done|]. unfold out_stream, buffer_ok. cbn.
    rewrite Htake, length_insert, app_nil_r. unfold w at 1. rewrite app_assoc.
    split; [done|]. split; [lia|done].
Qed.

(** X2: with a callback installed, a resize to any length [L >= 1]
    neither drops nor reorders a sample: the windows delivered by a shrink
    followed by the samples kept in the buffer are the stream as it was,
    and the context afterwards is the one the callback itself produces
    when it is given these windows one after the other; when [realloc]
    succeeds the buffer is in order afterwards, with capacity and
    allocation both [L]. *)
Theorem set_buf_len_keeps_stream q (L : Z) r (cb : qdsync_callback C) :
  callback q = Some cb ->
  buffer_ok q ->
  1 <= L < UINT_MOD ->
  exists rc q' windows,
    qdsync_cccf_set_buf_len q L r = Done (rc, q')
    /\ cb_log q' = cb_log q ++ windows
    /\ context q' = consume cb windows (context q)
    /\ concat windows ++ take (Z.to_nat (buf_out_counter q')) (buf_out q')
       = take (Z.to_nat (buf_out_counter q)) (buf_out q)
    /\ out_stream q' = out_stream q
    /\ (r <> ReallocNull ->
        rc = LIQUID_OK /\ buffer_ok q'
        /\ buf_out_len q' = L /\ Z.of_nat (length (buf_out q')) = L).
Proof.
  intros Hcb (Hc & Hl & Hm) HL.
  destruct (Z.lt_ge_cases (buf_out_counter q) L) as [Hgrow|Hshrink].
  - rewrite set_buf_len_grow by lia. unfold resized. cbn.
    destruct r as [|junk]; cbn.
    + eexists _, _, []. split; [done|]. cbn. by rewrite app_nil_r.
    + eexists _, _, []. split; [done|]. unfold out_stream, buffer_ok. cbn.
      rewrite length_app, length_take, length_replicate, app_nil_r.
      rewrite take_app_le by (rewrite length_take; lia).
      rewrite take_take, Nat.min_l by lia.
      do 4 (split; [done|]).
      intros _. split; [done|]. split; [lia|]. split; [done|lia].
  - destruct (set_buf_len_shrink q L r) as (ctx & windows & Hrun & Hsome & _ & Hctx);
      [lia..|].
    destruct Hsome as (Hn & Hall & Hcat); [by rewrite Hcb|].
    specialize (Hctx cb Hcb).
    set (c := buf_out_counter q) in *.
    pose proof (Z.mod_pos_bound c L).
    pose proof (Z.div_mod c L).
    assert (0 <= c / L) by (apply Z.div_pos; lia).
    set (tail := take (Z.to_nat (c mod L)) (drop (Z.to_nat (L * (c / L))) (buf_out q)))
      in *.
    assert (Htail : length tail = Z.to_nat (c mod L)).
    { unfold tail. rewrite length_take, length_drop. nia. }
    assert (Hall' : concat windows ++ tail = take (Z.to_nat c) (buf_out q)).
    { rewrite Hcat. unfold tail. rewrite take_add_drop by nia. f_equal. nia. }
    rewrite Hrun. unfold resized. cbn.
    destruct r as [|junk]; cbn.
    + eexists _, _, windows. split; [done|]. cbn.
      assert (Hkeep : take (Z.to_nat (c mod L)) (tail ++ drop (length tail) (buf_out q))
                      = tail) by (by rewrite <- Htail, take_app_length).
      unfold out_stream. cbn. rewrite Hkeep, concat_app, <- app_assoc, Hall'.
      by do 4 (split; [done|]).
    + eexists _, _, windows. split; [done|]. unfold out_stream, buffer_ok. cbn.
      rewrite !length_app, length_take, length_app, length_drop, length_replicate.
      rewrite take_app_le by (rewrite length_take, length_app, length_drop; lia).
      rewrite take_take, Nat.min_l by lia.
      assert (Hkeep : take (Z.to_nat (c mod L)) (tail ++ drop (length tail) (buf_out q))
                      = tail) by (by rewrite <- Htail, take_app_length).
      rewrite Hkeep, concat_app, <- app_assoc, Hall'.
      do 4 (split; [done|]).
      intros _. split; [done|]. split; [lia|]. split; [done|lia].
Qed.

(** What an append leaves alone, and what it does to the symbol counter
    when no restart is requested. *)
Lemma buf_append_in_order q x :
  buffer_ok q ->
  exists rc q',
    qdsync_cccf_buf_append q x = Done (rc, q')
    /\ buffer_ok q'
    /\ k q' = k q /\ m q' = m q /\ mf_counter q' = mf_counter q
    /\ callback q' = callback q
    /\ (never_restarts q ->
        state q' = state q /\ symbol_counter q' = uint (symbol_counter q + 1)).
Proof.
  intros Hok. pose proof (uint_succ_cursor q Hok) as Hu.
  destruct Hok as (Hc & Hl & Hm).
  unfold qdsync_cccf_buf_append. cbn.
  destruct (_ <=? _).
  { eexists _, _. split; [done|]. unfold buffer_ok. cbn.
    split; [lia|]. do 4 (split; [done|]). intros _. by split. }
  rewrite store_Done by lia. cbn. rewrite Hu.
  destruct (Z.eqb_spec (buf_out_counter q + 1) (buf_out_len q)) as [Hfull|Hnot]; cbn.
  - destruct (callback q) as [cb|] eqn:Hcb.
    + unfold invoke_callback. cbn.
      rewrite read_window_Done by (rewrite ?length_insert; lia). cbn.
      destruct (cb _ (context q)) as [rc ctx] eqn:Hrc. cbn.
      destruct (Z.eqb_spec rc 0) as [->|Hnz]; cbn; eexists _, _; (split; [done|]);
        unfold buffer_ok; cbn; rewrite length_insert;
        (split; [lia|]); do 4 (split; [done|]); intros Hnever.
      * done.
      * apply (f_equal fst) in Hrc. rewrite (Hnever cb Hcb) in Hrc.
        cbn in Hrc. congruence.
    + eexists _, _. split; [done|]. unfold buffer_ok. cbn. rewrite length_insert.
      split; [lia|]. do 4 (split; [done|]). intros _. by split.
  - eexists _, _. split; [done|]. unfold buffer_ok. cbn. rewrite length_insert.
    split; [lia|]. do 4 (split; [done|]). intros _. by split.
Qed.

(** A tracking step on a buffer in order returns and keeps the order. *)
Lemma step_in_order q x :
  buffer_ok q ->
  exists q', qdsync_cccf_step q x = Done (LIQUID_OK, q') /\ buffer_ok q'.
Proof.
  intros Hok. unfold qdsync_cccf_step. cbn.
  destruct (int_geu _ _).
  - match goal with
    | |- context [qdsync_cccf_buf_append ?q1 ?y] =>
        destruct (buf_append_in_order q1 y) as (rc & q' & -> & Hok' & _)
    end; [exact Hok|].
    cbn. by exists q'.
  - eexists. split; [done|]. exact Hok.
Qed.

(** X3: on a buffer in order a tracking step always returns [LIQUID_OK]:
    it writes inside the allocation, whatever the callback answers, and
    leaves the buffer in order. *)
Theorem step_stays_in_buffer q x :
  buffer_ok q ->
  exists q', qdsync_cccf_step q x = Done (LIQUID_OK, q') /\ buffer_ok q'.
Proof. apply step_in_order. Qed.




Lemma execute_detect_with_silent exec q x (d1 : D) :
  qdetector_cccf_execute (detector q) x = (d1, None) ->
  qdsync_cccf_execute_detect_with exec q x = Done (LIQUID_OK, with_detector d1 q).
Proof. intros Hd. unfold qdsync_cccf_execute_detect_with. by rewrite Hd. Qed.


(** X5: while the detector reports nothing, [qdsync_cccf_execute] in
    detection state changes the detector alone: no counter moves, nothing
    reaches the buffer or the callback, and one level of calls is
    enough. *)
Theorem searching_changes_detector_only fuel q xs (d' : D) :
  state q = QDSYNC_STATE_DETECT ->
  detector_silent (detector q) xs = Some d' ->
  qdsync_cccf_execute (S fuel) q xs = Done (LIQUID_OK, with_detector d' q).
Proof.
  cbn [qdsync_cccf_execute].
  generalize (qdsync_cccf_execute (D:=D) (N:=N) (F:=F) (C:=C) fuel).
  intros exec. revert q.
  induction xs as [|x xs IH]; intros q Hs Hsilent;
    cbn [execute_loop detector_silent] in *.
  - by injection Hsilent as <-.
  - rewrite Hs.
    change (QDSYNC_STATE_DETECT =? QDSYNC_STATE_DETECT) with true. cbv iota.
    destruct (qdetector_cccf_execute (detector q) x) as [d1 [v|]] eqn:Hd; [done|].
    rewrite (execute_detect_with_silent exec q x d1 Hd).
    cbn [mbind res_bind]. by apply (IH (with_detector d1 q)).
Qed.

(** X6: the samples may be handed over in any number of calls: running
    [xs ++ ys] is running [xs] and then, unless that run stopped in the
    unknown-state branch, [ys] on the object it left. *)
Theorem execute_app fuel q xs ys :
  qdsync_cccf_execute fuel q (xs ++ ys)
  = r ← qdsync_cccf_execute fuel q xs;
    match r with
    | (LIQUID_OK, q1) => qdsync_cccf_execute fuel q1 ys
    | _ => Done r
    end.
Proof.
  destruct fuel as [|fuel]; [done|]. cbn [qdsync_cccf_execute].
  generalize (qdsync_cccf_execute_detect_with
                (qdsync_cccf_execute (D:=D) (N:=N) (F:=F) (C:=C) fuel)).
  intros detect. revert q.
  induction xs as [|x xs IH]; intros q; cbn [app execute_loop].
  - done.
  - destruct (state q =? QDSYNC_STATE_DETECT).
    + destruct (detect q x) as [[rc q1]| |]; [|done..]. cbn [mbind res_bind].
      apply IH.
    + destruct (state q =? QDSYNC_STATE_SYNC); [|done].
      destruct (qdsync_cccf_step q x) as [[rc q1]| |]; [|done..].
      cbn [mbind res_bind]. apply IH.
Qed.

(** X7: the handoff stores a branch index inside the bank exactly when
    the truncated product of the timing estimate and [npfb] lies in
    [[-npfb, npfb)]; outside that range the stored index is [npfb] or
    more. *)
Theorem handoff_index_in_bank q (index : Z) :
  f32_to_int (f32_mul (qdetector_cccf_get_tau (detector q)) (f32_of_Z (npfb q)))
    = Done index ->
  0 < npfb q <= INT_MAX ->
  exists q',
    qdsync_cccf_handoff q = Done q'
    /\ 0 <= pfb_index q'
    /\ (pfb_index q' < npfb q <-> - npfb q <= index < npfb q).
Proof.
  intros Hcast Hn. pose proof Hcast as [_ Hi]%f32_to_int_Done.
  unfold INT_MIN, INT_MAX in *.
  unfold qdsync_cccf_handoff. cbn. rewrite Hcast. cbn.
  destruct (Z.ltb_spec index 0) as [Hneg|Hpos]; cbn.
  - eexists. split; [done|]. cbn.
    rewrite (uint_neg index) by (unfold UINT_MOD; lia).
    replace (index + UINT_MOD + npfb q) with (index + npfb q + UINT_MOD) by lia.
    rewrite sint_add_mod.
    rewrite (sint_small (index + npfb q)) by (unfold INT_MIN, INT_MAX; lia).
    pose proof (uint_range (index + npfb q)). split; [lia|].
    destruct (Z.lt_ge_cases (index + npfb q) 0).
    + rewrite uint_neg by (unfold UINT_MOD; lia). unfold UINT_MOD. lia.
    + rewrite uint_small by (unfold UINT_MOD; lia). lia.
  - eexists. split; [done|]. cbn.
    rewrite uint_small by (unfold UINT_MOD; lia). lia.
Qed.

(** X8: on every object reached from creation [qdsync_cccf_is_open]
    answers 1 exactly in tracking state and 0 exactly in detection state;
    no third case exists. *)
Theorem is_open_reports_tracking junk (_seq : list cfloat) _seq_len _ftype _k _m _beta
    (_callback : option (qdsync_callback C)) (_context : C) q0 cs q :
  qdsync_cccf_create_linear (D:=D) (N:=N) (F:=F) junk _seq _seq_len _ftype _k _m
    _beta _callback _context = Some q0 ->
  api_run_all q0 cs = Done q ->
  (state q = QDSYNC_STATE_SYNC /\ qdsync_cccf_is_open q = 1)
  \/ (state q = QDSYNC_STATE_DETECT /\ qdsync_cccf_is_open q = 0).
Proof.
  intros Hc Hrun.
  assert (Hq : state_known q).
  { apply reachable_state_known. eapply api_run_all_reachable, Hrun.
    by eapply reachable_create. }
  unfold qdsync_cccf_is_open. destruct Hq as [Hs|Hs]; rewrite Hs; [right|left]; done.
Qed.

(** X9: when an append fills the buffer and the callback answers a value
    other than zero, the window is delivered once, complete and in order,
    and the synchronizer is reset: detection state, symbol counter and
    cursor at zero, detector and filter bank reset; the call itself
    returns [LIQUID_OK]. *)
Theorem append_restart_resets q x (cb : qdsync_callback C) :
  callback q = Some cb ->
  buffer_ok q ->
  uint (2 * m q) < uint (symbol_counter q + 1) ->
  buf_out_counter q + 1 = buf_out_len q ->
  let w := take (Z.to_nat (buf_out_counter q)) (buf_out q) ++ [x] in
  fst (cb w (context q)) <> 0 ->
  exists q',
    qdsync_cccf_buf_append q x = Done (LIQUID_OK, q')
    /\ cb_log q' = cb_log q ++ [w]
    /\ state q' = QDSYNC_STATE_DETECT
    /\ symbol_counter q' = 0 /\ buf_out_counter q' = 0
    /\ detector q' = qdetector_cccf_reset (detector q)
    /\ mf q' = firpfb_crcf_reset (mf q)
    /\ context q' = snd (cb w (context q)).
Proof.
  intros Hcb Hok Hgt Hfull w Hrc. pose proof (uint_succ_cursor q Hok) as Hu.
  destruct Hok as (Hc & Hl & Hm).
  assert (Hw : take (Z.to_nat (buf_out_len q))
                 (<[Z.to_nat (buf_out_counter q) := x]> (buf_out q)) = w).
  { rewrite <- Hfull, Z2Nat.inj_add, Nat.add_1_r by lia.
    apply take_insert_snoc. lia. }
  rewrite (buf_append_callback_restart q x cb); try done; try lia.
  - eexists. split; [reflexivity|]. cbn. rewrite Hw. by repeat split.
  - by rewrite Hw.
Qed.

(** *** The buffer stays in order *)









End Stream.

(** ** The number-theory helpers of the Rader sandbox *)

Section Rader.

Lemma umod_Done (a b : Z) : b <> 0 -> umod a b = Done (a mod b).
Proof. intros Hb. unfold umod. by destruct (Z.eqb_spec b 0). Qed.

Lemma udiv_Done (a b : Z) : b <> 0 -> udiv a b = Done (a / b).
Proof. intros Hb. unfold udiv. by destruct (Z.eqb_spec b 0). Qed.

Lemma mod_zero_divide (a b : Z) : b <> 0 -> (a mod b =? 0) = true <-> (b | a).
Proof. intros Hb. rewrite Z.eqb_eq. by apply Z.mod_divide. Qed.

(** *** [is_prime] *)

Lemma is_prime_loop_no_divisor (fuel : nat) (n i : Z) :
  2 <= i -> n < UINT_MOD ->
  (Z.to_nat (n - i) <= fuel)%nat ->
  (forall j, i <= j < n -> ~ (j | n)) ->
  is_prime_loop fuel n i = Done 1.
Proof.
  revert i. induction fuel as [|fuel IH]; intros i Hi Hn Hfuel Hnone; cbn.
  - destruct (Z.ltb_spec i n); [lia|done].
  - destruct (Z.ltb_spec i n) as [Hlt|]; [|done].
    rewrite umod_Done by lia. cbn.
    destruct (n mod i =? 0) eqn:Hdiv.
    + apply mod_zero_divide in Hdiv; [|lia]. destruct (Hnone i); [lia|done].
    + rewrite uint_small by lia. apply IH; try lia.
      intros j Hj. apply Hnone. lia.
Qed.

Lemma is_prime_loop_divisor (fuel : nat) (n i j : Z) :
  2 <= i -> n < UINT_MOD ->
  (Z.to_nat (n - i) <= fuel)%nat ->
  i <= j < n -> (j | n) ->
  is_prime_loop fuel n i = Done 0.
Proof.
  revert i. induction fuel as [|fuel IH]; intros i Hi Hn Hfuel Hj Hdiv; cbn.
  - lia.
  - destruct (Z.ltb_spec i n) as [Hlt|]; [|lia].
    rewrite umod_Done by lia. cbn.
    destruct (n mod i =? 0) eqn:Hi0; [done|].
    assert (i <> j) as Hne.
    { intros ->. apply mod_zero_divide in Hdiv; [|lia]. congruence. }
    rewrite uint_small by lia. apply IH; [lia..|done].
Qed.

(** What [is_prime] answers. *)
Lemma is_prime_spec (n : Z) :
  0 <= n < UINT_MOD ->
  exists r,
    is_prime n = Done r
    /\ (r = 1 \/ r = 0)
    /\ (r = 1 <-> n < 4 \/ Z.prime n).
Proof.
  intros Hn. unfold is_prime.
  destruct (Z.ltb_spec n 4) as [Hsmall|Hbig].
  { exists 1. split; [done|]. split; [by left|]. split; auto. }
  destruct (Znumtheory.prime_dec n) as [Hp%Znumtheory.prime_alt|Hnp].
  - exists 1. split; [|split; [by left|split; auto]].
    apply is_prime_loop_no_divisor; try lia.
    intros j Hj. apply Hp. lia.
  - exists 0. split; [|split; [by right|]].
    + assert (exists j, 2 <= j < n /\ (j | n)) as (j & Hj & Hdiv).
      { rewrite <- Znumtheory.prime_alt in Hnp.
        destruct (Znumtheory.not_prime_divide n) as (j & Hj & Hdiv); [lia|..].
        - by rewrite <- Znumtheory.prime_alt.
        - exists j. split; [lia|done]. }
      by eapply (is_prime_loop_divisor _ n 2 j); try lia.
    + split; [done|]. intros [?|Hp]; [lia|].
      by apply Znumtheory.prime_alt in Hp.
Qed.

(** X12: [is_prime] answers 1 or 0, and it answers 1 exactly for the
    primes and for every number below 4: 0 and 1 are reported prime. *)
Theorem is_prime_correct (n : Z) :
  0 <= n < UINT_MOD ->
  exists r,
    is_prime n = Done r
    /\ (r = 1 \/ r = 0)
    /\ (r = 1 <-> n < 4 \/ Z.prime n).
Proof. apply is_prime_spec. Qed.

(** X13: [main] lets a transform size through exactly when it is a prime
    greater than two; the numbers 0, 1 and 2, which [is_prime] would
    accept, are stopped by the first test. *)
Theorem nfft_accepted_iff_odd_prime (nfft : Z) :
  0 <= nfft < UINT_MOD ->
  exists b,
    nfft_rejected nfft = Done b
    /\ (b = false <-> 2 < nfft /\ Z.prime nfft).
Proof.
  intros Hn. unfold nfft_rejected.
  destruct (Z.leb_spec nfft 2) as [Hle|Hgt].
  { exists true. split; [done|]. split; [done|lia]. }
  destruct (is_prime_spec nfft Hn) as (r & -> & Hr & Hiff). cbn.
  exists (r =? 0). split; [done|].
  destruct Hr as [->| ->]; cbn.
  - split; [intros _|done]. split; [done|].
    destruct Hiff as [[Hsmall|Hp] _]; [done| |done].
    assert (nfft = 3) as -> by lia. apply Z.prime_3.
  - split; [done|]. intros [_ Hp].
    destruct Hiff as [_ Hback]. specialize (Hback (or_intror Hp)). lia.
Qed.

(** *** [modpow] *)

Lemma modpow_loop_pow (count : nat) (c b n : Z) :
  2 <= n -> 0 <= b -> (n - 1) * b < UINT_MOD -> 0 <= c < n ->
  modpow_loop count c b n = Done (c * b ^ Z.of_nat count mod n).
Proof.
  intros Hn Hb Hov. revert c.
  induction count as [|count IH]; intros c Hc.
  - cbn. rewrite Z.mul_1_r. f_equal. symmetry. by apply Z.mod_small.
  - cbn [modpow_loop]. rewrite umod_Done by lia. cbn [mbind res_bind].
    assert (0 <= c * b < UINT_MOD) by nia.
    rewrite uint_small by done.
    rewrite IH by (apply Z.mod_pos_bound; lia).
    f_equal. rewrite Nat2Z.inj_succ, Z.pow_succ_r by lia.
    rewrite Z.mul_mod_idemp_l by lia. f_equal. lia.
Qed.

(** [modpow] without wrap-around. *)
Lemma modpow_pow (b e n : Z) :
  2 <= n -> 0 <= b -> (n - 1) * b < UINT_MOD -> 0 <= e ->
  modpow b e n = Done (b ^ e mod n).
Proof.
  intros Hn Hb Hov He. unfold modpow.
  rewrite modpow_loop_pow by lia.
  rewrite Z2Nat.id by lia. f_equal. f_equal. lia.
Qed.

(** X14: as long as the products cannot wrap, which [(n - 1) * base <
    2^32] ensures, [modpow] is the power modulo [n >= 2]. *)
Theorem modpow_correct (b e n : Z) :
  2 <= n -> 0 <= b -> (n - 1) * b < UINT_MOD -> 0 <= e ->
  modpow b e n = Done (b ^ e mod n).
Proof. apply modpow_pow. Qed.

Lemma modpow_loop_range (count : nat) (c b n : Z) :
  0 < n -> 0 <= c < n ->
  exists c', modpow_loop count c b n = Done c' /\ 0 <= c' < n.
Proof.
  intros Hn. revert c. induction count as [|count IH]; intros c Hc.
  - by exists c.
  - cbn [modpow_loop]. rewrite umod_Done by lia. cbn [mbind res_bind].
    apply IH. apply Z.mod_pos_bound. lia.
Qed.

(** X15: the edges of [modpow].  An exponent of zero gives 1 whatever the
    modulus, also for the moduli 0 and 1; with a positive exponent the
    modulus 0 is a division by zero, and any positive modulus gives a
    result below it, wrapped products or not. *)
Theorem modpow_edges (b e n : Z) :
  modpow b 0 n = Done 1
  /\ (0 < e -> modpow b e 0 = Fault)
  /\ (0 < e -> 0 < n -> exists c, modpow b e n = Done c /\ 0 <= c < n).
Proof.
  split; [done|]. split.
  - intros He. unfold modpow.
    destruct (Z.to_nat e) as [|count] eqn:Hcount; [lia|]. done.
  - intros He Hn. unfold modpow.
    destruct (Z.to_nat e) as [|count] eqn:Hcount; [lia|].
    cbn [modpow_loop]. rewrite umod_Done by lia. cbn [mbind res_bind].
    apply modpow_loop_range; [done|]. apply Z.mod_pos_bound. lia.
Qed.

(** *** The factorization of [_n - 1] *)

(** The inner loop finds the least divisor above 1, which is a prime. *)
Lemma find_factor_least (fuel : nat) (n k : Z) :
  2 <= k <= n -> n < UINT_MOD ->
  (Z.to_nat (n - k) < fuel)%nat ->
  (forall j, 2 <= j < k -> ~ (j | n)) ->
  exists k',
    find_factor fuel n k = Done (Some k')
    /\ k <= k' <= n /\ (k' | n) /\ forall j, 2 <= j < k' -> ~ (j | n).
Proof.
  revert k. induction fuel as [|fuel IH]; intros k Hk Hn Hfuel Hnone; [lia|].
  cbn [find_factor].
  destruct (Z.leb_spec k n); [|lia].
  rewrite umod_Done by lia. cbn [mbind res_bind].
  destruct (n mod k =? 0) eqn:Hdiv.
  - apply mod_zero_divide in Hdiv; [|lia]. exists k. split; [done|]. split; [lia|done].
  - assert (~ (k | n)) as Hndiv.
    { intros Hd. apply mod_zero_divide in Hd; [|lia]. congruence. }
    assert (k <> n) by (intros ->; apply Hndiv; reflexivity).
    rewrite uint_small by lia.
    destruct (IH (k + 1)) as (k' & Hrun & Hk' & Hd' & Hleast); try lia.
    + intros j Hj. destruct (Z.eq_dec j k) as [->|]; [done|]. apply Hnone. lia.
    + exists k'. split; [done|]. split; [lia|done].
Qed.

Lemma find_factor_none (fuel : nat) (n : Z) :
  n < 2 -> find_factor fuel n 2 = Done None.
Proof.
  intros Hn. destruct fuel; cbn; by destruct (Z.leb_spec 2 n); [lia|].
Qed.

Lemma least_divisor_prime (n k : Z) :
  2 <= k -> (k | n) -> (forall j, 2 <= j < k -> ~ (j | n)) -> Z.prime k.
Proof.
  intros Hk Hd Hleast. split; [lia|].
  intros j Hj Hjk. apply (Hleast j); [lia|]. by etransitivity.
Qed.

(** Every number from 2 up to [UINT_MAX] has a prime divisor. *)
Lemma prime_divisor_exists (n : Z) :
  2 <= n < UINT_MOD -> exists q, Z.prime q /\ (q | n).
Proof.
  intros Hn.
  destruct (find_factor_least (S (Z.to_nat n)) n 2) as (q & _ & Hq & Hd & Hleast);
    try lia.
  exists q. split; [|done]. eapply least_divisor_prime; [lia|done..].
Qed.

Lemma prime_of_product (q k n : Z) :
  Z.prime q -> Z.prime k -> (q | k * n) -> q = k \/ (q | n).
Proof.
  intros Hq Hk Hd. apply Z.divide_prime_mul in Hd; [|done].
  destruct Hd as [Hd|Hd]; [left|by right].
  by apply Z.divide_prime_prime.
Qed.

Lemma increasing_snoc (l : list Z) (k : Z) :
  increasing l -> (forall f, In f l -> f < k) -> increasing (l ++ [k]).
Proof.
  intros Hinc Hlt i j a b Hij Ha Hb.
  destruct (decide (j < length l)%nat) as [Hj|Hj].
  - rewrite lookup_app_l in Ha, Hb by lia. exact (Hinc i j a b Hij Ha Hb).
  - assert (j = length l) as ->.
    { apply lookup_lt_Some in Hb. rewrite length_app in Hb. cbn in Hb. lia. }
    rewrite lookup_app_l in Ha by lia.
    rewrite lookup_app_r, Nat.sub_diag in Hb by lia. cbn in Hb. injection Hb as <-.
    apply Hlt. apply list_elem_of_In. by eapply list_elem_of_lookup_2.
Qed.

Lemma In_take_lookup (l : list Z) (n : nat) (f : Z) :
  In f (take n l) -> exists i, (i < n)%nat /\ l !! i = Some f.
Proof.
  intros Hf%list_elem_of_In. apply elem_of_take in Hf as (i & Hi & Hlt).
  by exists i.
Qed.

Lemma least_divisor_le_prime (n k q : Z) :
  (forall j, 2 <= j < k -> ~ (j | n)) -> Z.prime q -> (q | n) -> k <= q.
Proof.
  intros Hleast Hq Hd. pose proof (Z.prime_ge_2 q Hq).
  destruct (Z.le_gt_cases k q); [done|]. destruct (Hleast q); [lia|done].
Qed.

(** One pass of the factorization on a rest of at least 2: a prime is
    divided out and the table is extended when the prime is new. *)
Lemma factor_body_step (n0 : Z) (st : factor_state) :
  factor_inv n0 st ->
  2 <= fs_n st -> num_unique_factors st < MAX_FACTORS -> n0 < UINT_MOD ->
  exists st',
    factor_body st = Done st' /\ factor_inv n0 st' /\ fs_n st' < fs_n st.
Proof.
  destruct st as [tbl num n]. unfold factor_inv, factors_found, MAX_FACTORS. cbn.
  intros (Hn1 & Hnum & Hpow & Hlen & Hprimes & Hinc & Hiff & Hle) Hn Hmax Hn0.
  assert (0 < 2 ^ num) by (apply Z.pow_pos_nonneg; lia).
  assert (n <= n0) by nia.
  unfold factor_body. cbn.
  destruct (find_factor_least (Z.to_nat n) n 2) as (k & -> & Hk & Hd & Hleast);
    try lia.
  cbn [mbind res_bind].
  rewrite udiv_Done by lia. cbn [mbind res_bind].
  assert (Hkp : Z.prime k) by (eapply least_divisor_prime; [lia|done..]).
  assert (Hnk : n = k * (n / k)).
  { destruct Hd as [t Ht]. rewrite Ht at 2. rewrite Z.div_mul by lia. lia. }
  set (n' := n / k) in *.
  assert (Hn' : 1 <= n' < n) by nia.
  assert (Hsplit : forall q, Z.prime q -> (q | n) <-> q = k \/ (q | n')).
  { intros q Hq. split.
    - rewrite Hnk at 1. by apply prime_of_product.
    - intros [->|Hq']; [done|]. rewrite Hnk. by apply Z.divide_mul_r. }
  assert (Hkle : forall q, Z.prime q -> (q | n') -> k <= q).
  { intros q Hq Hq'. apply (least_divisor_le_prime n); [done..|].
    apply Hsplit; auto. }
  unfold store_uint.
  destruct (Z.leb_spec 0 num); [|lia].
  destruct (Z.ltb_spec num (Z.of_nat (length tbl))); [|lia].
  cbn [andb mbind res_bind].
  destruct (Z.eqb_spec num 0) as [->|Hnz].
  - eexists. split; [done|]. cbn [fs_n num_unique_factors unique_factors].
    change (uint (0 + 1)) with 1.
    split; [|lia].
    assert (Hfs : take (Z.to_nat 1) (<[Z.to_nat 0 := k]> tbl) = [k]).
    { destruct tbl; [cbn in *; lia|done]. }
    rewrite Hfs, length_insert.
    split; [lia|]. split; [lia|]. split; [nia|]. split; [done|].
    split; [by constructor|]. split.
    { intros [|i] [|j] a b Hij Ha Hb; try lia; by destruct j. }
    split.
    + intros q Hq. rewrite (Hiff q Hq). cbn. rewrite (Hsplit q Hq). intuition (auto; congruence).
    + intros f q [<-|[]] Hq Hq'. by apply Hkle.
  - rewrite (uint_small (num - 1)) by (unfold UINT_MOD; lia).
    assert (exists prev, tbl !! Z.to_nat (num - 1) = Some prev) as [prev Hprev].
    { apply lookup_lt_is_Some. lia. }
    unfold load_uint. destruct (Z.leb_spec 0 (num - 1)); [|lia].
    rewrite list_lookup_insert_ne by lia. rewrite Hprev. cbn [mbind res_bind].
    assert (Hprev_in : In prev (take (Z.to_nat num) tbl)).
    { apply list_elem_of_In, elem_of_take. exists (Z.to_nat (num - 1)).
      split; [done|lia]. }
    destruct (Z.eqb_spec prev k) as [->|Hne].
    + eexists. split; [done|]. cbn [fs_n num_unique_factors unique_factors].
      rewrite take_insert_ge, length_insert by lia.
      split; [|lia].
      split; [lia|]. split; [lia|]. split; [nia|]. split; [done|].
      split; [done|]. split; [done|]. split.
      * intros q Hq. rewrite (Hiff q Hq), (Hsplit q Hq). intuition (auto; congruence).
      * intros f q Hf Hq Hq'. apply (Hle f q); [done..|]. apply Hsplit; auto.
    + eexists. split; [done|]. cbn [fs_n num_unique_factors unique_factors].
      rewrite (uint_small (num + 1)) by (unfold UINT_MOD; lia).
      assert (Hfs : take (Z.to_nat (num + 1)) (<[Z.to_nat num := k]> tbl)
                    = take (Z.to_nat num) tbl ++ [k]).
      { rewrite Z2Nat.inj_add, Nat.add_1_r by lia. apply take_insert_snoc. lia. }
      rewrite Hfs, length_insert.
      assert (Hlt : forall f, In f (take (Z.to_nat num) tbl) -> f < k).
      { intros f Hf.
        assert (f <= k) by (by apply (Hle f k)).
        destruct (Z.eq_dec f k) as [->|]; [|lia]. exfalso.
        apply In_take_lookup in Hf as (i & Hi & Hfi).
        assert (i <> Z.to_nat (num - 1)) by congruence.
        assert (k < prev).
        { apply (Hinc i (Z.to_nat (num - 1))); [lia|..];
            apply lookup_take_Some; split; try done; lia. }
        assert (prev <= k) by (by apply (Hle prev k)). lia. }
      split; [|lia].
      split; [lia|]. split; [lia|]. split.
      { rewrite Z.pow_add_r, Z.pow_1_r by lia. nia. }
      split; [done|]. split; [apply Forall_app; split; [done|by constructor]|].
      split; [by apply increasing_snoc|]. split.
      * intros q Hq. rewrite (Hiff q Hq), (Hsplit q Hq), in_app_iff. cbn. intuition (auto; congruence).
      * intros f q Hf Hq Hq'. apply in_app_iff in Hf as [Hf|[<-|[]]].
        -- apply (Hle f q); [done..|]. apply Hsplit; auto.
        -- by apply Hkle.
Qed.

Lemma factor_count_small (n0 num n : Z) :
  0 <= num -> 1 <= n -> 2 ^ num * n <= n0 -> n0 < UINT_MOD -> num < 32.
Proof.
  intros Hnum Hn Hpow Hn0. destruct (Z.lt_ge_cases num 32); [done|].
  assert (2 ^ 32 <= 2 ^ num) by (apply Z.pow_le_mono_r; lia).
  unfold UINT_MOD in *. nia.
Qed.

Lemma factor_loop_spec (n0 : Z) (fuel : nat) (st : factor_state) :
  factor_inv n0 st ->
  num_unique_factors st < MAX_FACTORS -> n0 < UINT_MOD ->
  (Z.to_nat (fs_n st) <= fuel)%nat ->
  exists st',
    factor_loop fuel st = Done st' /\ factor_inv n0 st' /\ fs_n st' = 1.
Proof.
  revert st. induction fuel as [|fuel IH]; intros st Hinv Hnum Hn0 Hfuel.
  - pose proof Hinv as (Hn1 & _). assert (fs_n st = 1) as Hone by lia.
    cbn [factor_loop]. unfold factor_body.
    rewrite find_factor_none by lia. cbn [mbind res_bind]. rewrite Hone.
    exists st. by rewrite Hone.
  - cbn [factor_loop].
    assert (exists st1, factor_body st = Done st1 /\ factor_inv n0 st1
                        /\ (fs_n st1 < fs_n st \/ fs_n st1 = 1)) as (st1 & -> & Hinv1 & Hdec).
    { pose proof Hinv as (Hn1 & _).
      destruct (Z.le_gt_cases 2 (fs_n st)) as [Hbig|Hsmall].
      - destruct (factor_body_step n0 st) as (st1 & Hrun & Hinv1 & Hlt); [done..|].
        exists st1. auto.
      - exists st. unfold factor_body. rewrite find_factor_none by lia.
        split; [done|]. split; [done|]. right. lia. }
    cbn [mbind res_bind].
    pose proof Hinv1 as (Hn1 & Hnum1 & Hpow1 & _).
    pose proof (factor_count_small _ _ _ Hnum1 Hn1 Hpow1 Hn0) as Hsmall.
    destruct (Z.ltb_spec 1 (fs_n st1)) as [Hmore|Hdone]; cbn [andb].
    + destruct (Z.ltb_spec (num_unique_factors st1) MAX_FACTORS) as [Hroom|Hfull];
        [|unfold MAX_FACTORS in Hfull; lia].
      apply IH; [done..|lia].
    + exists st1. split; [done|]. split; [done|lia].
Qed.

(** The table after the factorization. *)
Lemma factor_table_spec (table0 : list Z) (n : Z) :
  Z.of_nat (length table0) = MAX_FACTORS ->
  1 <= n < UINT_MOD ->
  exists st,
    factor_loop (Z.to_nat n) (FactorState table0 0 n) = Done st
    /\ 0 <= num_unique_factors st < 32
    /\ increasing (factors_found st)
    /\ Forall Z.prime (factors_found st)
    /\ forall q, Z.prime q -> (q | n) <-> In q (factors_found st).
Proof.
  intros Hlen Hn.
  destruct (factor_loop_spec n (Z.to_nat n) (FactorState table0 0 n))
    as (st & Hrun & Hinv & Hone).
  - unfold factor_inv, factors_found. cbn. change (Z.to_nat 0) with O. rewrite take_0.
    split; [lia|]. split; [lia|]. split; [lia|]. split; [done|].
    split; [done|]. split; [by intros [|i] j a b|].
    split; [intros q _; cbn; tauto|]. by intros f q [].
  - unfold MAX_FACTORS. cbn. lia.
  - lia.
  - cbn. lia.
  - destruct Hinv as (Hn1 & Hnum & Hpow & _ & Hprimes & Hinc & Hiff & _).
    exists st. split; [done|].
    split; [split; [done|]; eapply factor_count_small; [done| |done|]; lia|].
    split; [done|]. split; [done|].
    intros q Hq. rewrite (Hiff q Hq), Hone. split; [|auto].
    intros [?|Hq1]; [done|]. pose proof (Z.prime_ge_2 q Hq).
    apply Z.divide_1_r_nonneg in Hq1; lia.
Qed.

(** X16: the factorization of [primitive_root] is correct and needs no
    more than 31 of the 40 cells: for [1 <= n < 2^32] it ends with a table
    that lists, in strictly increasing order and once each, exactly the
    primes that divide [n], whatever the table held before. *)
Theorem factor_table_correct (table0 : list Z) (n : Z) :
  Z.of_nat (length table0) = MAX_FACTORS ->
  1 <= n < UINT_MOD ->
  exists st,
    factor_loop (Z.to_nat n) (FactorState table0 0 n) = Done st
    /\ 0 <= num_unique_factors st < 32
    /\ increasing (factors_found st)
    /\ Forall Z.prime (factors_found st)
    /\ forall q, Z.prime q -> (q | n) <-> In q (factors_found st).
Proof. apply factor_table_spec. Qed.

(** *** The search of the root *)

Lemma is_root_loop_spec (factors : list Z) (g p : Z) :
  2 <= p <= 65536 -> 0 <= g < p ->
  Forall Z.prime factors ->
  exists b,
    is_root_loop factors g p = Done b
    /\ (b = true <-> forall f, In f factors -> g ^ ((p - 1) / f) mod p <> 1).
Proof.
  intros Hp Hg. induction 1 as [|f factors Hf _ IH]; cbn [is_root_loop].
  - exists true. split; [done|]. split; [by intros _ f []|done].
  - pose proof (Z.prime_ge_2 f Hf).
    rewrite (uint_small (p - 1)) by (unfold UINT_MOD; lia).
    rewrite udiv_Done by lia. cbn [mbind res_bind].
    rewrite modpow_pow; [|lia|lia|unfold UINT_MOD; nia|apply Z.div_pos; lia].
    cbn [mbind res_bind].
    destruct (Z.eqb_spec (g ^ ((p - 1) / f) mod p) 1) as [Hone|Hnot].
    + exists false. split; [done|]. split; [done|].
      intros Hall. destruct (Hall f); [by left|done].
    + destruct IH as (b & -> & Hb). exists b. split; [done|].
      etransitivity; [exact Hb|]. split.
      * intros Hall f' [<-|Hf']; [done|by apply Hall].
      * intros Hall f' Hf'. apply Hall. by right.
Qed.

Lemma root_search_spec (fuel : nat) (factors : list Z) (p g0 : Z) :
  2 <= p <= 65536 -> 0 <= g0 <= Z.max 2 p ->
  Forall Z.prime factors ->
  (Z.to_nat (p - g0) <= fuel)%nat ->
  let test h := forall f, In f factors -> h ^ ((p - 1) / f) mod p <> 1 in
  exists g,
    root_search fuel factors p g0 = Done g
    /\ g0 <= g <= Z.max g0 p
    /\ (g < p -> test g)
    /\ forall h, g0 <= h < g -> ~ test h.
Proof.
  intros Hp Hg0 Hfs Hfuel test. revert g0 Hg0 Hfuel.
  induction fuel as [|fuel IH]; intros g0 Hg0 Hfuel.
  - cbn. destruct (Z.ltb_spec g0 p); [lia|].
    exists g0. split; [done|]. split; [lia|]. split; [lia|]. intros h Hh. lia.
  - cbn [root_search]. destruct (Z.ltb_spec g0 p) as [Hlt|Hge].
    + destruct (is_root_loop_spec factors g0 p) as (b & -> & Hb); [lia|lia|done|].
      cbn [mbind res_bind]. destruct b.
      * exists g0. split; [done|]. split; [lia|]. split; [intros _; exact (proj1 Hb eq_refl)|].
        intros h Hh. lia.
      * rewrite uint_small by (unfold UINT_MOD; lia).
        destruct (IH (g0 + 1)) as (g & -> & Hg & Htest & Hleast); [lia|lia|].
        exists g. split; [done|]. split; [lia|]. split; [done|].
        intros h Hh. destruct (Z.eq_dec h g0) as [->|Hne]; [|apply Hleast; lia].
        intros Hpass. pose proof (proj2 Hb Hpass). done.
    + exists g0. split; [done|]. split; [lia|]. split; [lia|]. intros h Hh. lia.
Qed.

(** The result of [primitive_root] in terms of the test of its search. *)
Lemma primitive_root_search (table0 : list Z) (p : Z) :
  Z.of_nat (length table0) = MAX_FACTORS ->
  2 <= p <= 65536 ->
  exists g,
    primitive_root table0 p = Done g
    /\ 2 <= g <= p
    /\ (g < p -> passes_root_test p g)
    /\ forall h, 2 <= h < g -> ~ passes_root_test p h.
Proof.
  intros Hlen Hp. unfold primitive_root.
  rewrite (uint_small (p - 1)) by (unfold UINT_MOD; lia).
  destruct (factor_table_spec table0 (p - 1)) as (st & -> & _ & _ & Hprimes & Hiff);
    [done|unfold UINT_MOD; lia|].
  cbn [mbind res_bind].
  destruct (root_search_spec (Z.to_nat p) (factors_found st) p 2)
    as (g & Hrun & Hg & Htest & Hleast); [lia|lia|done|lia|].
  unfold factors_found in Hrun. rewrite Hrun.
  assert (Hsame : forall h,
             passes_root_test p h
             <-> forall f, In f (factors_found st) -> h ^ ((p - 1) / f) mod p <> 1).
  { assert (Hpr : forall f, In f (factors_found st) -> Z.prime f).
    { intros f Hf. rewrite Forall_forall in Hprimes. apply Hprimes.
      by apply list_elem_of_In. }
    intros h. unfold passes_root_test. split.
    - intros Hpass f Hf. apply Hpass; [by apply Hpr|].
      apply Hiff; [by apply Hpr|done].
    - intros Hall q Hq Hd. apply Hall. by apply Hiff. }
  exists g. split; [done|]. split; [lia|]. split.
  - intros Hlt. apply Hsame. by apply Htest.
  - intros h Hh Hpass. apply (Hleast h Hh). by apply Hsame.
Qed.

(** X17: for [2 <= _n <= 65536], where no product of [modpow] can wrap,
    [primitive_root] returns the least [g >= 2] below [_n] with
    [g ^ ((_n - 1) / q) mod _n <> 1] for every prime [q] that divides
    [_n - 1]; when no such [g] exists it returns [_n] itself.  The result
    does not depend on what the table held before. *)
Theorem primitive_root_least_passing (table0 : list Z) (p : Z) :
  Z.of_nat (length table0) = MAX_FACTORS ->
  2 <= p <= 65536 ->
  exists g,
    primitive_root table0 p = Done g
    /\ 2 <= g <= p
    /\ (g < p -> passes_root_test p g)
    /\ forall h, 2 <= h < g -> ~ passes_root_test p h.
Proof. apply primitive_root_search. Qed.

(** *** Primitive roots *)

Lemma pow_one_mod (a d s p : Z) :
  1 < p -> 0 <= s -> a ^ d mod p = 1 -> (a ^ d) ^ s mod p = 1.
Proof.
  intros Hp Hs Hone.
  rewrite <- Z.mod_pow_l, Hone, Z.pow_1_l by lia. apply Z.mod_small. lia.
Qed.

(** A power that is 1 has an exponent that can be cut down to a divisor
    of [p - 1], by Fermat's little theorem. *)
Lemma order_divides (p g : Z) (bound : nat) (d : Z) :
  Z.prime p -> g mod p <> 0 ->
  (Z.to_nat d <= bound)%nat ->
  0 < d -> g ^ d mod p = 1 ->
  exists d', 0 < d' <= d /\ (d' | p - 1) /\ g ^ d' mod p = 1.
Proof.
  intros Hp Hg. pose proof (Z.prime_ge_2 p Hp) as Hp2.
  revert d. induction bound as [|bound IH]; intros d Hbound Hd Hone; [lia|].
  destruct (Z.eq_dec ((p - 1) mod d) 0) as [Hzero|Hrest].
  - exists d. split; [lia|]. split; [|done]. apply Z.mod_divide; [lia|done].
  - pose proof (Z.mod_pos_bound (p - 1) d ltac:(lia)) as Hr.
    pose proof (Z.div_mod (p - 1) d ltac:(lia)) as Hdm.
    assert (0 <= (p - 1) / d) by (apply Z.div_pos; lia).
    assert (Hone' : g ^ ((p - 1) mod d) mod p = 1).
    { pose proof (Z.fermat_nz p g Hp Hg) as Hf.
      rewrite Hdm, Z.pow_add_r, Z.pow_mul_r in Hf by lia.
      rewrite Z.mul_mod, pow_one_mod, Z.mul_1_l, Z.mod_mod in Hf by lia.
      exact Hf. }
    destruct (IH ((p - 1) mod d)) as (d' & Hd' & Hdiv & Hpow); [lia|lia|done|].
    exists d'. split; [lia|done].
Qed.

(** For a prime modulus the test of the search is the definition of a
    primitive root. *)
Lemma passes_iff_primitive (p g : Z) :
  Z.prime p -> p < UINT_MOD -> 0 < g < p ->
  passes_root_test p g <-> primitive_root_of p g.
Proof.
  intros Hp Hmax Hg. pose proof (Z.prime_ge_2 p Hp) as Hp2.
  assert (Hgp : g mod p <> 0) by (rewrite Z.mod_small; lia).
  split.
  - intros Hpass. split; [done|]. intros d Hd Hone.
    destruct (order_divides p g (Z.to_nat d) d) as (d' & Hd' & [t Ht] & Hpow);
      [done|done|lia|lia|done|].
    assert (2 <= t) by nia.
    destruct (prime_divisor_exists t) as (q & Hq & [u Hu]); [nia|].
    pose proof (Z.prime_ge_2 q Hq).
    assert (Hquot : (p - 1) / q = u * d').
    { rewrite Ht, Hu. replace (u * q * d') with (u * d' * q) by lia.
      apply Z.div_mul. lia. }
    apply (Hpass q Hq).
    + exists (u * d'). rewrite Ht, Hu. lia.
    + rewrite Hquot, Z.mul_comm, Z.pow_mul_r by nia.
      apply pow_one_mod; [lia|nia|done].
  - intros [_ Hord] q Hq [t Ht]. pose proof (Z.prime_ge_2 q Hq).
    apply Hord. rewrite Ht, Z.div_mul by lia. nia.
Qed.

(** X18: for a prime [_n <= 65536] a result below [_n] is a primitive
    root modulo [_n], the least one from 2 on: none of its powers below
    [_n - 1] is 1, and every smaller candidate has such a power.  A result
    equal to [_n] says that no candidate passed. *)
Theorem primitive_root_is_generator (table0 : list Z) (p : Z) :
  Z.of_nat (length table0) = MAX_FACTORS ->
  Z.prime p -> p <= 65536 ->
  exists g,
    primitive_root table0 p = Done g
    /\ 2 <= g <= p
    /\ (g < p -> primitive_root_of p g)
    /\ forall h, 2 <= h < g -> ~ primitive_root_of p h.
Proof.
  intros Hlen Hp Hmax. pose proof (Z.prime_ge_2 p Hp) as Hp2.
  destruct (primitive_root_search table0 p) as (g & Hrun & Hg & Hpass & Hleast);
    [done|lia|].
  exists g. split; [done|]. split; [done|]. split.
  - intros Hlt. apply passes_iff_primitive; [done|unfold UINT_MOD; lia|lia|auto].
  - intros h Hh Hroot. apply (Hleast h Hh).
    apply passes_iff_primitive; [done|unfold UINT_MOD; lia|lia|done].
Qed.

End Rader.

(** ** Concrete runs *)

Import Mock.

(** The handoff on the estimate [- 3 / 512]: the product with 256 is
    [- 3 / 2], the cast gives [-1], the branch index is 255 and the timing
    counter is [k - 1]. *)
Lemma C1_handoff_truncates_witness :
  exists q',
    qdsync_cccf_handoff (searching 2 2 tau_minus_three_halves None 4) = Done q'
    /\ state q' = QDSYNC_STATE_SYNC /\ pfb_index q' = 255 /\ mf_counter q' = 1.
Proof.
  destruct (C1_handoff_truncates (searching 2 2 tau_minus_three_halves None 4) (-1))
    as (q' & H1 & H2 & H3 & H4).
  - vm_compute. reflexivity.
  - cbn. unfold INT_MAX. lia.
  - cbn. unfold INT_MAX. lia.
  - cbn. unfold INT_MAX. lia.
  - exists q'. cbn in H3, H4. auto.
Defined.

(** C1 as stated fails on the estimate [- 3 / 1024]: the product with 256
    is [- 3 / 4]; the code cuts it to 0, leaves the index at 0 and the
    timing counter at [k - 2 = 0], while rounding gives [-1], hence the
    index 255 and the counter [k - 1 = 1]. *)
Lemma C1_round_counterexample :
  exists q',
    qdsync_cccf_handoff (searching 2 2 tau_small_negative None 4) = Done q'
    /\ Some (pfb_index q') <> spec_handoff_pfb_index tau_small_negative 256
    /\ Some (mf_counter q') <> spec_handoff_mf_counter tau_small_negative 256 2
    /\ (pfb_index q', mf_counter q') = (0, 0)
    /\ spec_handoff_pfb_index tau_small_negative 256 = Some 255
    /\ spec_handoff_mf_counter tau_small_negative 256 2 = Some 1.
Proof.
  eexists. split; [vm_compute; reflexivity|].
  vm_compute. repeat split; congruence.
Qed.

Lemma C2_step_decimation_witness :
  exists q',
    qdsync_cccf_step (tracking 2 0 f32_zero None 4 []) s5 = Done (LIQUID_OK, q')
    /\ mf_counter q' = -1 /\ buf_out q' !! 0%nat = Some s5
    /\ buf_out_counter q' = 1.
Proof.
  destruct (C2_step_decimation (tracking 2 0 f32_zero None 4 []) s5) as [Hstep _].
  - cbn. unfold INT_MAX. lia.
  - cbn. unfold INT_MAX. lia.
  - rewrite Hstep. vm_compute. eexists. repeat split.
Defined.

Lemma C3_shrink_delivers_full_windows_witness :
  exists q',
    qdsync_cccf_set_buf_len (tracking 2 0 f32_zero (Some cb_record) 8 [s1; s2; s3; s4; s5])
      2 (ReallocOk s1) = Done (LIQUID_OK, q')
    /\ cb_log q' = [[s1; s2]; [s3; s4]]
    /\ context q' = 1234%nat
    /\ take 1 (buf_out q') = [s5]
    /\ buf_out_counter q' = 1 /\ buf_out_len q' = 2.
Proof.
  destruct (C3_shrink_delivers_full_windows
              (tracking 2 0 f32_zero (Some cb_record) 8 [s1; s2; s3; s4; s5])
              2 cb_record (ReallocOk s1))
    as (rc & q' & windows & Hrun & _).
  - reflexivity.
  - cbn. lia.
  - cbn. lia.
  - cbn. unfold UINT_MOD. lia.
  - vm_compute in Hrun. injection Hrun as <- <-.
    eexists. split; [vm_compute; reflexivity|]. vm_compute. repeat split.
Defined.

Lemma C4_filter_delay_gating_witness :
  let q := with_symbol_counter 0 (tracking 2 2 f32_zero None 4 []) in
  append_all q [s1; s2; s3] = Done (with_symbol_counter 3 q)
  /\ exists rc q',
       (q2 ← append_all q [s1; s2; s3; s4]; qdsync_cccf_buf_append q2 s5) = Done (rc, q')
       /\ buf_out q' !! 0%nat = Some s5.
Proof.
  intros q.
  destruct (C4_filter_delay_gating q [s1; s2; s3; s4] s5) as [Hfirst Hnext].
  - reflexivity.
  - cbn. unfold UINT_MOD. lia.
  - reflexivity.
  - cbn. lia.
  - split.
    + apply (Hfirst 3%nat). cbn. lia.
    + destruct Hnext as (rc & q' & Hrun & _ & Hcell). by exists rc, q'.
Defined.

Lemma C7_grow_preserves_samples_witness :
  exists rc q',
    qdsync_cccf_set_buf_len (tracking 2 0 f32_zero (Some cb_continue) 4 [s1; s2; s3])
      6 (ReallocOk s5) = Done (rc, q')
    /\ buf_out q' !! 2%nat = Some s3
    /\ buf_out_len q' = 6 /\ buf_out_counter q' = 3 /\ cb_log q' = [].
Proof.
  destruct (C7_grow_preserves_samples
              (tracking 2 0 f32_zero (Some cb_continue) 4 [s1; s2; s3]) 6 (ReallocOk s5))
    as (rc & q' & Hrun & Hcells & Hlen & Hcur & Hlog & _).
  - cbn. lia.
  - cbn. lia.
  - exists rc, q'. split; [done|]. split; [|done].
    rewrite (Hcells 2%nat); [reflexivity|cbn; lia].
Defined.

Lemma C9_state_stays_known_witness :
  exists q0 q,
    qdsync_cccf_create_linear junk0 [s1] 1 0 2 0 f32_one (Some cb_restart) O = Some q0
    /\ api_run_all q0
         [CallSetBufLen 2 (ReallocOk s1); CallExecute 3 [s5; s1; s2; s3];
          CallSetBufLen 3 (ReallocOk s1); CallCopy] = Done q
    /\ state_known q
    /\ forall fuel xs rc q',
         qdsync_cccf_execute fuel q xs = Done (rc, q') ->
         rc = LIQUID_OK /\ rc <> LIQUID_EINT /\ state_known q'.
Proof.
  destruct (qdsync_cccf_create_linear junk0 [s1] 1 0 2 0 f32_one (Some cb_restart) O)
    as [q0|] eqn:Hc; [|vm_compute in Hc; discriminate].
  destruct (api_run_all q0
              [CallSetBufLen 2 (ReallocOk s1); CallExecute 3 [s5; s1; s2; s3];
               CallSetBufLen 3 (ReallocOk s1); CallCopy]) as [q| |] eqn:Hrun.
  - exists q0, q. split; [done|]. split; [done|].
    exact (C9_state_stays_known _ _ _ _ _ _ _ _ _ _ _ _ Hc Hrun).
  - vm_compute in Hc. injection Hc as <-. vm_compute in Hrun. discriminate.
  - vm_compute in Hc. injection Hc as <-. vm_compute in Hrun. discriminate.
Defined.

Lemma C10_no_callback_witness :
  (exists q',
     qdsync_cccf_buf_append (tracking 2 0 f32_zero None 3 [s1; s2]) s3
     = Done (LIQUID_OK, q')
     /\ cb_log q' = [] /\ state q' = QDSYNC_STATE_SYNC /\ buf_out_counter q' = 0)
  /\ (exists q',
        qdsync_cccf_set_buf_len (tracking 2 0 f32_zero None 8 [s1; s2; s3; s4; s5])
          2 (ReallocOk s1) = Done (LIQUID_OK, q')
        /\ cb_log q' = [] /\ buf_out_counter q' = 1 /\ take 1 (buf_out q') = [s5]).
Proof.
  split.
  - destruct (C10_no_callback (tracking 2 0 f32_zero None 3 [s1; s2])) as [Happ _];
      [reflexivity|].
    destruct (Happ s3) as (q' & Hrun & Hlog & _ & Hstate & _ & _ & Hfull);
      [cbn; lia|].
    exists q'. split; [done|]. split; [done|]. split; [done|].
    apply Hfull; vm_compute; reflexivity.
  - destruct (C10_no_callback (tracking 2 0 f32_zero None 8 [s1; s2; s3; s4; s5]))
      as [_ Hshrink]; [reflexivity|].
    destruct (Hshrink 2 s1) as (q' & Hrun & Hlog & _ & _ & Hcur & _ & Htail).
    + cbn. lia.
    + cbn. lia.
    + cbn. unfold UINT_MOD. lia.
    + exists q'. split; [done|]. split; [done|]. split; [done|]. exact Htail.
Defined.

(** *** Where the code leaves the specification *)

(** C5 on the shrink path: three samples are buffered, the callback asks
    for a restart every time it is called, and the buffer is shrunk to
    length 1.  The callback is called three times and each request is
    dropped: the object stays in tracking state and the symbol counter
    keeps its value, where a reset would leave [QDSYNC_STATE_DETECT] and
    zero. *)
Theorem C5_shrink_drops_restart_request :
  let q := tracking 2 0 f32_zero (Some cb_restart) 4 [s1; s2; s3] in
  exists q',
    qdsync_cccf_set_buf_len q 1 (ReallocOk s1) = Done (LIQUID_OK, q')
    /\ cb_log q' = [[s1]; [s2]; [s3]]
    /\ context q' = 3%nat
    /\ state q' = QDSYNC_STATE_SYNC
    /\ symbol_counter q' = 3
    /\ q' <> snd (qdsync_cccf_reset q').
Proof.
  eexists. split; [vm_compute; reflexivity|].
  vm_compute. repeat split. discriminate.
Qed.

(** C6 on the grow path: a fresh object has capacity 64; a resize to 128
    whose [realloc] fails answers the allocation error, yet the recorded
    capacity is 128 while the block still has 64 cells, and the 65th
    sample appended afterwards is written outside the block. *)
Theorem C6_failed_grow_records_new_length :
  exists q0 q',
    qdsync_cccf_create_linear junk0 [s1] 1 0 2 0 f32_one None O = Some q0
    /\ buf_out_len q0 = 64 /\ length (buf_out q0) = 64%nat
    /\ qdsync_cccf_set_buf_len q0 128 ReallocNull = Done (LIQUID_EIMEM, q')
    /\ buf_out_len q' = 128 /\ length (buf_out q') = 64%nat
    /\ (exists q'', append_all q' (replicate 64 s1) = Done q'')
    /\ append_all q' (replicate 65 s1) = Fault.
Proof.
  eexists _, _. split; [vm_compute; reflexivity|].
  split; [reflexivity|]. split; [reflexivity|].
  split; [vm_compute; reflexivity|].
  split; [reflexivity|]. split; [reflexivity|].
  split; [eexists; vm_compute; reflexivity|].
  vm_compute. reflexivity.
Qed.

(** *** Runs for the further properties *)

Lemma append_extends_stream_witness :
  exists q',
    qdsync_cccf_buf_append (tracking 2 0 f32_zero (Some cb_record) 3 [s1; s2]) s3
    = Done (LIQUID_OK, q')
    /\ out_stream q' = [s1; s2; s3]
    /\ cb_log q' = [[s1; s2; s3]]
    /\ context q' = 123%nat.
Proof.
  destruct (append_extends_stream (tracking 2 0 f32_zero (Some cb_record) 3 [s1; s2])
              s3 cb_record)
    as (rc & q' & Hrun & _).
  - reflexivity.
  - unfold buffer_ok, UINT_MOD. cbn. lia.
  - vm_compute. reflexivity.
  - vm_compute in Hrun. injection Hrun as <- <-.
    eexists. split; [vm_compute; reflexivity|]. vm_compute. repeat split.
Defined.

Lemma set_buf_len_keeps_stream_witness :
  exists q',
    qdsync_cccf_set_buf_len (tracking 2 0 f32_zero (Some cb_record) 8 [s1; s2; s3; s4; s5])
      2 (ReallocOk s1) = Done (LIQUID_OK, q')
    /\ out_stream q' = [s1; s2; s3; s4; s5]
    /\ context q' = 1234%nat
    /\ buffer_ok q'.
Proof.
  destruct (set_buf_len_keeps_stream
              (tracking 2 0 f32_zero (Some cb_record) 8 [s1; s2; s3; s4; s5])
              2 (ReallocOk s1) cb_record)
    as (rc & q' & windows & Hrun & _).
  - reflexivity.
  - unfold buffer_ok, UINT_MOD. cbn. lia.
  - unfold UINT_MOD. lia.
  - vm_compute in Hrun. injection Hrun as <- <-.
    eexists. split; [vm_compute; reflexivity|]. vm_compute.
    repeat split; discriminate.
Defined.

Lemma step_stays_in_buffer_witness :
  exists q',
    qdsync_cccf_step (tracking 2 0 f32_zero (Some cb_restart) 1 []) s5
    = Done (LIQUID_OK, q')
    /\ buffer_ok q'.
Proof.
  apply step_stays_in_buffer. unfold buffer_ok, UINT_MOD. cbn. lia.
Defined.


Lemma searching_changes_detector_only_witness :
  qdsync_cccf_execute 1 (searching 2 2 f32_zero (Some cb_restart) 4) [s2; s3; s4]
  = Done (LIQUID_OK, with_detector f32_zero (searching 2 2 f32_zero (Some cb_restart) 4)).
Proof.
  apply searching_changes_detector_only.
  - reflexivity.
  - vm_compute. reflexivity.
Defined.

Lemma handoff_index_in_bank_witness :
  exists q',
    qdsync_cccf_handoff (searching 2 2 tau_minus_three_halves None 4) = Done q'
    /\ 0 <= pfb_index q'
    /\ (pfb_index q' < 256 <-> - 256 <= -1 < 256).
Proof.
  apply (handoff_index_in_bank (searching 2 2 tau_minus_three_halves None 4) (-1)).
  - vm_compute. reflexivity.
  - unfold INT_MAX. cbn. lia.
Defined.

Lemma is_open_reports_tracking_witness :
  exists q0 q,
    qdsync_cccf_create_linear junk0 [s1] 1 0 2 0 f32_one (Some cb_continue) O = Some q0
    /\ api_run_all q0 [CallExecute 3 [s5; s1; s2]] = Done q
    /\ ((state q = QDSYNC_STATE_SYNC /\ qdsync_cccf_is_open q = 1)
        \/ (state q = QDSYNC_STATE_DETECT /\ qdsync_cccf_is_open q = 0)).
Proof.
  destruct (qdsync_cccf_create_linear junk0 [s1] 1 0 2 0 f32_one (Some cb_continue) O)
    as [q0|] eqn:Hc; [|vm_compute in Hc; discriminate].
  destruct (api_run_all q0 [CallExecute 3 [s5; s1; s2]]) as [q| |] eqn:Hrun.
  - exists q0, q. split; [done|]. split; [done|].
    exact (is_open_reports_tracking _ _ _ _ _ _ _ _ _ _ _ _ Hc Hrun).
  - vm_compute in Hc. injection Hc as <-. vm_compute in Hrun. discriminate.
  - vm_compute in Hc. injection Hc as <-. vm_compute in Hrun. discriminate.
Defined.

Lemma append_restart_resets_witness :
  exists q',
    qdsync_cccf_buf_append (tracking 2 0 f32_zero (Some cb_restart) 3 [s1; s2]) s3
    = Done (LIQUID_OK, q')
    /\ cb_log q' = [[s1; s2; s3]]
    /\ state q' = QDSYNC_STATE_DETECT
    /\ symbol_counter q' = 0 /\ buf_out_counter q' = 0.
Proof.
  destruct (append_restart_resets (tracking 2 0 f32_zero (Some cb_restart) 3 [s1; s2])
              s3 cb_restart) as (q' & Hrun & Hlog & Hs & Hsc & Hcur & _).
  - reflexivity.
  - unfold buffer_ok, UINT_MOD. cbn. lia.
  - vm_compute. reflexivity.
  - reflexivity.
  - cbn. discriminate.
  - exists q'. by repeat split.
Defined.



Lemma is_prime_correct_witness :
  exists r, is_prime 97 = Done r /\ (r = 1 \/ r = 0) /\ (r = 1 <-> 97 < 4 \/ Z.prime 97).
Proof. apply is_prime_correct. unfold UINT_MOD. lia. Defined.

Lemma nfft_accepted_iff_odd_prime_witness :
  exists b, nfft_rejected 17 = Done b /\ (b = false <-> 2 < 17 /\ Z.prime 17).
Proof. apply nfft_accepted_iff_odd_prime. unfold UINT_MOD. lia. Defined.

Lemma modpow_correct_witness : modpow 3 4 17 = Done (3 ^ 4 mod 17).
Proof. apply modpow_correct; unfold UINT_MOD; lia. Defined.

Lemma modpow_edges_witness :
  modpow 65536 0 1 = Done 1
  /\ modpow 65536 2 0 = Fault
  /\ exists c, modpow 65536 2 4294967295 = Done c /\ 0 <= c < 4294967295.
Proof.
  destruct (modpow_edges 65536 2 0) as (_ & Hzero & _).
  destruct (modpow_edges 65536 2 4294967295) as (_ & _ & Hrange).
  destruct (modpow_edges 65536 0 1) as (Hone & _).
  split; [exact Hone|]. split; [apply Hzero; lia|apply Hrange; lia].
Defined.

Lemma factor_table_correct_witness :
  exists st,
    factor_loop (Z.to_nat 360) (FactorState (replicate 40 7) 0 360) = Done st
    /\ 0 <= num_unique_factors st < 32
    /\ increasing (factors_found st)
    /\ Forall Z.prime (factors_found st)
    /\ forall q, Z.prime q -> (q | 360) <-> In q (factors_found st).
Proof.
  apply factor_table_correct.
  - reflexivity.
  - unfold UINT_MOD. lia.
Defined.

Lemma primitive_root_least_passing_witness :
  exists g,
    primitive_root (replicate 40 7) 17 = Done g
    /\ 2 <= g <= 17
    /\ (g < 17 -> passes_root_test 17 g)
    /\ forall h, 2 <= h < g -> ~ passes_root_test 17 h.
Proof. apply primitive_root_least_passing; [reflexivity|lia]. Defined.

Lemma primitive_root_is_generator_witness :
  exists g,
    primitive_root (replicate 40 7) 17 = Done g
    /\ 2 <= g <= 17
    /\ (g < 17 -> primitive_root_of 17 g)
    /\ forall h, 2 <= h < g -> ~ primitive_root_of 17 h.
Proof.
  apply primitive_root_is_generator; [reflexivity| |lia].
  destruct (is_prime_spec 17) as (r & Hrun & _ & Hiff); [unfold UINT_MOD; lia|].
  vm_compute in Hrun. injection Hrun as <-.
  destruct (proj1 Hiff eq_refl); [lia|done].
Defined.
